(** * Copyright expiry scheduler: a shallow embedding of [src/scheduler.py]

    The development follows the Python module function by function.
    Python objects become records, [Optional[...]] becomes [option],
    the [status_by_jurisdiction] dictionary becomes a [gmap], exceptions
    raised by the [date] constructor are explicit in the result type,
    and the storage collaborator is an explicit [Database] value that is
    threaded through the functions that write to it. *)

From stdpp Require Import gmap strings list fin_maps.
From Stdlib Require Import ZArith Lia.

Local Open Scope string_scope.
Local Open Scope Z_scope.

(** ** Exceptions *)

(** The only exceptions the scheduler can produce by itself are those of
    the [datetime.date] constructor: [ValueError] for a year outside
    1..9999, and [OverflowError] for a year that does not fit a C [int]. *)
Inductive exn := ValueError | OverflowError.

Inductive res (A : Type) :=
| Ok (a : A)
| Raise (e : exn).
Arguments Ok {A} a.
Arguments Raise {A} e.

#[global] Instance res_bind : MBind res := λ A B f m,
  match m with
  | Ok a => f a
  | Raise e => Raise e
  end.

(** ** [datetime.date]

    The part of the standard library's [date] that the scheduler uses:
    the checked constructor, the fields, comparison and the difference
    in days, with the ordinal arithmetic of the reference implementation
    ([_ymd2ord] and its helpers). *)

Module Datetime.

Record date := mkdate { year : Z; month : Z; day : Z }.

Definition MINYEAR : Z := 1.
Definition MAXYEAR : Z := 9999.

Definition _is_leap (y : Z) : bool :=
  (y mod 4 =? 0) && (negb (y mod 100 =? 0) || (y mod 400 =? 0)).

Definition _DAYS_IN_MONTH (m : Z) : Z :=
  match m with
  | 1 => 31 | 2 => 28 | 3 => 31 | 4 => 30 | 5 => 31 | 6 => 30
  | 7 => 31 | 8 => 31 | 9 => 30 | 10 => 31 | 11 => 30 | 12 => 31
  | _ => -1
  end.

Definition _DAYS_BEFORE_MONTH (m : Z) : Z :=
  match m with
  | 1 => 0 | 2 => 31 | 3 => 59 | 4 => 90 | 5 => 120 | 6 => 151
  | 7 => 181 | 8 => 212 | 9 => 243 | 10 => 273 | 11 => 304 | 12 => 334
  | _ => -1
  end.

Definition _days_in_month (y m : Z) : Z :=
  if (m =? 2) && _is_leap y then 29 else _DAYS_IN_MONTH m.

Definition _days_before_year (yr : Z) : Z :=
  let y := yr - 1 in
  y * 365 + y / 4 - y / 100 + y / 400.

Definition _days_before_month (y m : Z) : Z :=
  _DAYS_BEFORE_MONTH m + (if (2 <? m) && _is_leap y then 1 else 0).

Definition _ymd2ord (y m d : Z) : Z :=
  _days_before_year y + _days_before_month y m + d.

(** [_check_date_fields]: the range test of the constructor. *)
Definition _check_date_fields (y m d : Z) : bool :=
  (MINYEAR <=? y) && (y <=? MAXYEAR) &&
  (1 <=? m) && (m <=? 12) &&
  (1 <=? d) && (d <=? _days_in_month y m).

(** The arguments of the constructor are converted to C [int]s first. *)
Definition INT_MIN : Z := -2147483648.
Definition INT_MAX : Z := 2147483647.

Definition _fits_int (n : Z) : bool := (INT_MIN <=? n) && (n <=? INT_MAX).

(** [date(y, m, d)] *)
Definition new_date (y m d : Z) : res date :=
  if _fits_int y && _fits_int m && _fits_int d then
    if _check_date_fields y m d then Ok (mkdate y m d) else Raise ValueError
  else Raise OverflowError.

(** Every [date] object that exists at run time passed the constructor. *)
Definition valid_date (d : date) : Prop :=
  _check_date_fields (year d) (month d) (day d) = true.

(** Comparison is the comparison of the [(year, month, day)] tuples. *)
Definition _cmp (a b : date) : comparison :=
  match year a ?= year b with
  | Eq => match month a ?= month b with
          | Eq => day a ?= day b
          | c => c
          end
  | c => c
  end.

Definition date_ltb (a b : date) : bool :=
  match _cmp a b with Lt => true | _ => false end.
Definition date_leb (a b : date) : bool :=
  match _cmp a b with Gt => false | _ => true end.
Definition date_gtb (a b : date) : bool :=
  match _cmp a b with Gt => true | _ => false end.
Definition date_geb (a b : date) : bool :=
  match _cmp a b with Lt => false | _ => true end.

Definition toordinal (d : date) : Z := _ymd2ord (year d) (month d) (day d).

(** [(a - b).days] *)
Definition days_between (a b : date) : Z := toordinal a - toordinal b.

End Datetime.
Import Datetime.

(** ** Truthiness of the Python values the scheduler tests *)

Definition truthy_int (o : option Z) : bool :=
  match o with
  | Some n => negb (n =? 0)
  | None => false
  end.

Definition truthy_str (s : string) : bool :=
  negb (String.eqb s "").

Definition is_some {A} (o : option A) : bool :=
  match o with
  | Some _ => true
  | None => false
  end.

Definition nonempty {A} (l : list A) : bool :=
  match l with
  | [] => false
  | _ :: _ => true
  end.

(** [o == s] for an [Optional[str]] on the left and a string on the right. *)
Definition ostr_eqb (o : option string) (s : string) : bool :=
  match o with
  | Some c => String.eqb c s
  | None => false
  end.

(** [s.endswith(suffix)] *)
Definition endswith (s suffix : string) : bool :=
  let n := String.length s in
  let k := String.length suffix in
  (k <=? n)%nat && String.eqb (String.substring (n - k) k s) suffix.

(** ** [data_models.py]

    Only the fields that the scheduler reads or writes are kept. *)

Module Jurisdiction.
Record t := mk {
  name : string;
  id : option Z;
  code : option string;
  term_years_after_death : Z;
  has_special_rules : bool
}.
End Jurisdiction.

Module Author.
Record t := mk {
  name : string;
  death_date : option date;
  nationality : option string
}.
End Author.

Module CopyrightRule.
Record t := mk {
  rule_type : string;
  term_years : Z
}.
End CopyrightRule.

Module Work.
Record t := mk {
  title : string;
  id : option Z;
  authors : list Author.t;
  creation_date : option date;
  copyright_expiry_date : option date;
  primary_jurisdiction : option Jurisdiction.t;
  status : string;
  status_by_jurisdiction : gmap string string
}.

Definition set_copyright_expiry_date (w : t) (v : option date) : t :=
  mk (title w) (id w) (authors w) (creation_date w) v
     (primary_jurisdiction w) (status w) (status_by_jurisdiction w).
Definition set_status (w : t) (v : string) : t :=
  mk (title w) (id w) (authors w) (creation_date w) (copyright_expiry_date w)
     (primary_jurisdiction w) v (status_by_jurisdiction w).
Definition set_status_by_jurisdiction (w : t) (v : gmap string string) : t :=
  mk (title w) (id w) (authors w) (creation_date w) (copyright_expiry_date w)
     (primary_jurisdiction w) (status w) v.
Definition set_primary_jurisdiction (w : t) (v : option Jurisdiction.t) : t :=
  mk (title w) (id w) (authors w) (creation_date w) (copyright_expiry_date w)
     v (status w) (status_by_jurisdiction w).
End Work.

(** ** [config.py] *)

Definition DEFAULT_TERM_YEARS : Z := 70.

(** ** [date_provider.py]

    [env_CURRENT_DATE] is the result of parsing the environment variable:
    [None] when it is unset or does not parse. *)

Record DateProvider := {
  _current_date_override : option date;
  env_CURRENT_DATE : option date
}.

Definition _DEFAULT_DATE : date := mkdate 2025 4 30.

Definition get_current_date (dp : DateProvider) : date :=
  match _current_date_override dp with
  | Some d => d
  | None =>
      match env_CURRENT_DATE dp with
      | Some d => d
      | None => _DEFAULT_DATE
      end
  end.

(** ** The storage collaborator ([database.py]), as far as the scheduler
    uses it *)

(** The tables the scheduler reads and writes, and [sqlite_errors], the
    fate of the writes to come: for each of them, in order, whether SQLite
    raises [sqlite3.Error] (a locked or unwritable file, a violated
    constraint).  Past the end of the list every write goes through. *)
Record Database := {
  jurisdictions : list Jurisdiction.t;
  copyright_rules : Z → list CopyrightRule.t;
  work_jurisdiction_status : gmap (Z * Z) (string * option date);
  sqlite_errors : list bool
}.

Definition get_all_jurisdictions (db : Database) : list Jurisdiction.t :=
  jurisdictions db.

Definition get_copyright_rules_for_jurisdiction (db : Database) (jid : Z)
  : list CopyrightRule.t :=
  copyright_rules db jid.

(** [set_work_copyright_status_by_jurisdiction]: the row is updated or
    inserted and the function returns [True].  When SQLite raises,
    [get_connection] rolls the transaction back and re-raises, and the
    function catches the [sqlite3.Error], logs it and returns [False]:
    the table is as it was. *)
Definition set_work_copyright_status_by_jurisdiction
    (db : Database) (work_id jurisdiction_id : Z) (status : string)
    (expiry_date : option date) : bool * Database :=
  match sqlite_errors db with
  | true :: rest =>
      (false,
       {| jurisdictions := jurisdictions db;
          copyright_rules := copyright_rules db;
          work_jurisdiction_status := work_jurisdiction_status db;
          sqlite_errors := rest |})
  | _ =>
      (true,
       {| jurisdictions := jurisdictions db;
          copyright_rules := copyright_rules db;
          work_jurisdiction_status :=
            <[(work_id, jurisdiction_id) := (status, expiry_date)]>
              (work_jurisdiction_status db);
          sqlite_errors := tail (sqlite_errors db) |})
  end.

(** ** Control-flow helpers

    A block of statements either executes a [return] ([Some r]) or falls
    through to the next statement ([None]). *)

Definition or_else {R} (block : option R) (rest : R) : R :=
  match block with
  | Some r => r
  | None => rest
  end.

(** [for x in l: body] where the body may [return]. *)
Fixpoint for_return {A R} (l : list A) (body : A → option R) : option R :=
  match l with
  | [] => None
  | x :: l' =>
      match body x with
      | Some r => Some r
      | None => for_return l' body
      end
  end.

(** [date(expiry_year, 12, 31)], returned. *)
Definition end_of_year (expiry_year : Z) : res (option date) :=
  d ← new_date expiry_year 12 31; Ok (Some d).

(** ** [scheduler.py] *)

(** The loop over the authors that both [calculate_standard_expiry] and
    the collaborative branch of [apply_special_rules] run: the state is
    [(latest_death_date, all_authors_have_death_dates)]. *)
Definition death_date_step (st : option date * bool) (author : Author.t)
  : option date * bool :=
  let '(latest_death_date, all_authors_have_death_dates) := st in
  match Author.death_date author with
  | Some d =>
      match latest_death_date with
      | None => (Some d, all_authors_have_death_dates)
      | Some l =>
          if date_gtb d l then (Some d, all_authors_have_death_dates)
          else (latest_death_date, all_authors_have_death_dates)
      end
  | None => (latest_death_date, false)
  end.

Definition scan_death_dates (authors : list Author.t) : option date * bool :=
  fold_left death_date_step authors (None, true).

Definition calculate_standard_expiry
    (work : Work.t) (jurisdiction : option Jurisdiction.t) : res (option date) :=
  let term_years :=
    match jurisdiction with
    | Some j => Jurisdiction.term_years_after_death j
    | None => DEFAULT_TERM_YEARS
    end in
  or_else
    (if nonempty (Work.authors work) then
       let '(latest_death_date, all_authors_have_death_dates) :=
         scan_death_dates (Work.authors work) in
       match latest_death_date with
       | Some l => Some (end_of_year (year l + term_years))
       | None =>
           if negb all_authors_have_death_dates
              && negb (is_some (Work.creation_date work))
           then Some (Ok None)
           else None
       end
     else None)
    (match Work.creation_date work with
     | Some c =>
         let term_years :=
           match jurisdiction with
           | Some j =>
               if ostr_eqb (Jurisdiction.code j) "US" then 95
               else if ostr_eqb (Jurisdiction.code j) "EU" then 70
               else term_years
           | None => 95
           end in
         end_of_year (year c + term_years)
     | None => Ok None
     end).

(** [for rule in rules: if rule.rule_type == tag: return date(y + rule.term_years, 12, 31)] *)
Definition first_rule_expiry (rules : list CopyrightRule.t) (tag : string)
    (base_year : Z) : option (res (option date)) :=
  for_return rules (λ rule,
    if String.eqb (CopyrightRule.rule_type rule) tag
    then Some (end_of_year (base_year + CopyrightRule.term_years rule))
    else None).

Definition apply_special_rules
    (db : Database) (work : Work.t) (jurisdiction : Jurisdiction.t)
  : res (option date) :=
  match Jurisdiction.id jurisdiction with
  | None => Ok None
  | Some jid =>
  if jid =? 0 then Ok None else
  let rules := get_copyright_rules_for_jurisdiction db jid in
  if negb (nonempty rules) then Ok None else
  if ostr_eqb (Jurisdiction.code jurisdiction) "US" then
    or_else
      (match Work.creation_date work with
       | Some c =>
           if year c <? 1923 then
             for_return rules (λ rule,
               if String.eqb (CopyrightRule.rule_type rule) "published_before_1923"
               then Some (c1923 ← new_date 1923 1 1; Ok (Some c1923))
               else None)
           else None
       | None => None
       end)
    (or_else
      (match Work.creation_date work with
       | Some c =>
           if (1923 <=? year c) && (year c <=? 1977) then
             first_rule_expiry rules "published_1923_to_1977" (year c)
           else None
       | None => None
       end)
    (or_else
      (match Work.authors work with
       | [a] =>
           if endswith (Author.name a) " Inc." then
             for_return rules (λ rule,
               match Work.creation_date work with
               | Some c =>
                   if String.eqb (CopyrightRule.rule_type rule) "corporate_works"
                   then Some (end_of_year (year c + CopyrightRule.term_years rule))
                   else None
               | None => None
               end)
           else None
       | _ => None
       end)
      (Ok None)))
  else if ostr_eqb (Jurisdiction.code jurisdiction) "EU" then
    or_else
      (match Work.creation_date work with
       | Some c =>
           if negb (nonempty (Work.authors work)) then
             first_rule_expiry rules "anonymous_works" (year c)
           else None
       | None => None
       end)
    (or_else
      (if (1 <? length (Work.authors work))%nat then
         for_return rules (λ rule,
           if String.eqb (CopyrightRule.rule_type rule) "collaborative_works" then
             let '(latest_death_date, all_authors_have_death_dates) :=
               scan_death_dates (Work.authors work) in
             match latest_death_date with
             | Some l =>
                 if all_authors_have_death_dates
                 then Some (end_of_year (year l + CopyrightRule.term_years rule))
                 else None
             | None => None
             end
           else None)
       else None)
      (Ok None))
  else if ostr_eqb (Jurisdiction.code jurisdiction) "GB" then
    or_else
      (match Work.creation_date work with
       | Some c =>
           if nonempty (Work.authors work)
              && existsb (λ author, String.eqb (Author.name author) "Crown")
                   (Work.authors work)
           then first_rule_expiry rules "crown_copyright" (year c)
           else None
       | None => None
       end)
      (Ok None)
  else Ok None
  end.

Definition calculate_expiry
    (db : Database) (work : Work.t) (jurisdiction : option Jurisdiction.t)
  : res (option date) :=
  let jurisdiction :=
    match jurisdiction with
    | Some j => Some j
    | None => Work.primary_jurisdiction work
    end in
  special ←
    match jurisdiction with
    | Some j =>
        if Jurisdiction.has_special_rules j
        then apply_special_rules db work j
        else Ok None
    | None => Ok None
    end;
  match special with
  | Some expiry_date => Ok (Some expiry_date)
  | None => calculate_standard_expiry work jurisdiction
  end.

(** The "very old works" block at the end of [determine_status]; [None]
    means that it falls through to the final [return 'Unknown']. *)
Definition historical_cutoff
    (work : Work.t) (jurisdiction : option Jurisdiction.t) : option string :=
  match Work.creation_date work with
  | Some c =>
      if year c <? 1875 then Some "Public Domain"
      else
        match jurisdiction with
        | Some j =>
            if ostr_eqb (Jurisdiction.code j) "US" && (year c <? 1927)
            then Some "Public Domain"
            else None
        | None => None
        end
  | None => None
  end.

(** [jurisdiction and work.status_by_jurisdiction and
     jurisdiction.code in work.status_by_jurisdiction], with the entry. *)
Definition cached_jurisdiction_status
    (work : Work.t) (jurisdiction : option Jurisdiction.t) : option string :=
  match jurisdiction with
  | Some j =>
      match Jurisdiction.code j with
      | Some c => Work.status_by_jurisdiction work !! c
      | None => None
      end
  | None => None
  end.

Definition determine_status
    (db : Database) (dp : DateProvider) (work : Work.t)
    (jurisdiction : option Jurisdiction.t) (current_date : option date)
  : res string :=
  let current_date :=
    match current_date with
    | Some d => d
    | None => get_current_date dp
    end in
  if negb (is_some jurisdiction) && truthy_str (Work.status work)
     && negb (String.eqb (Work.status work) "Unknown")
  then Ok (Work.status work)
  else
    match cached_jurisdiction_status work jurisdiction with
    | Some cached => Ok cached
    | None =>
        expiry_date ← calculate_expiry db work jurisdiction;
        match expiry_date with
        | Some e =>
            if date_leb e current_date then Ok "Public Domain"
            else Ok "Copyrighted"
        | None =>
            match historical_cutoff work jurisdiction with
            | Some status => Ok status
            | None => Ok "Unknown"
            end
        end
    end.

(** One iteration of the loop of [calculate_multi_jurisdiction_status];
    the state is [(status_map, db)]. *)
Definition multi_jurisdiction_step
    (dp : DateProvider) (work : Work.t)
    (st : gmap string string * Database) (jurisdiction : Jurisdiction.t)
  : res (gmap string string * Database) :=
  let '(status_map, db) := st in
  match Jurisdiction.code jurisdiction with
  | Some c =>
      if negb (truthy_str c) then Ok (status_map, db) else
      status ← determine_status db dp work (Some jurisdiction) None;
      let status_map := <[c := status]> status_map in
      match Work.id work, Jurisdiction.id jurisdiction with
      | Some wid, Some jid =>
          if negb (wid =? 0) && negb (jid =? 0) then
            expiry_date ← calculate_expiry db work (Some jurisdiction);
            (* the boolean that the call returns is dropped *)
            Ok (status_map,
                (set_work_copyright_status_by_jurisdiction db wid jid status
                   expiry_date).2)
          else Ok (status_map, db)
      | _, _ => Ok (status_map, db)
      end
  | None => Ok (status_map, db)
  end.

Fixpoint multi_jurisdiction_loop
    (dp : DateProvider) (work : Work.t)
    (jurisdictions : list Jurisdiction.t) (st : gmap string string * Database)
  : res (gmap string string * Database) :=
  match jurisdictions with
  | [] => Ok st
  | j :: rest =>
      st' ← multi_jurisdiction_step dp work st j;
      multi_jurisdiction_loop dp work rest st'
  end.

Definition calculate_multi_jurisdiction_status
    (db : Database) (dp : DateProvider) (work : Work.t)
    (jurisdictions : option (list Jurisdiction.t))
  : res (gmap string string * Database) :=
  let jurisdictions :=
    match jurisdictions with
    | Some (j :: l) => j :: l
    | _ => get_all_jurisdictions db
    end in
  multi_jurisdiction_loop dp work jurisdictions (∅, db).

(** The nested loops that pick a primary jurisdiction from the authors'
    nationalities. *)
Definition jurisdiction_of_nationality
    (authors : list Author.t) (jurisdictions : list Jurisdiction.t)
  : option Jurisdiction.t :=
  for_return authors (λ author,
    match Author.nationality author with
    | Some n =>
        if truthy_str n
        then List.find (λ j, ostr_eqb (Jurisdiction.code j) n) jurisdictions
        else None
    | None => None
    end).

Definition update_work_status
    (db : Database) (dp : DateProvider) (work : Work.t)
  : res (Work.t * Database) :=
  let jurisdictions := get_all_jurisdictions db in
  work ←
    match Work.copyright_expiry_date work with
    | Some _ => Ok work
    | None =>
        e ← calculate_expiry db work None;
        Ok (Work.set_copyright_expiry_date work e)
    end;
  status ← determine_status db dp work None None;
  let work := Work.set_status work status in
  '(status_map, db) ←
    calculate_multi_jurisdiction_status db dp work (Some jurisdictions);
  let work := Work.set_status_by_jurisdiction work status_map in
  let work :=
    match Work.primary_jurisdiction work with
    | Some _ => work
    | None =>
        if nonempty (Work.authors work) then
          match jurisdiction_of_nationality (Work.authors work) jurisdictions with
          | Some j => Work.set_primary_jurisdiction work (Some j)
          | None => work
          end
        else work
    end in
  Ok (work, db).

(** The first part of [get_days_until_expiry]: which expiry date is
    used, and the work with the cache filled in. *)
Definition resolve_expiry
    (db : Database) (work : Work.t) (jurisdiction : option Jurisdiction.t)
  : res (option date * Work.t) :=
  match jurisdiction with
  | Some j =>
      e ← calculate_expiry db work (Some j);
      Ok (e, work)
  | None =>
      work ←
        match Work.copyright_expiry_date work with
        | Some _ => Ok work
        | None =>
            e ← calculate_expiry db work None;
            Ok (Work.set_copyright_expiry_date work e)
        end;
      Ok (Work.copyright_expiry_date work, work)
  end.

Definition get_days_until_expiry
    (db : Database) (dp : DateProvider) (work : Work.t)
    (jurisdiction : option Jurisdiction.t) (current_date : option date)
  : res (option Z * Work.t) :=
  let current_date :=
    match current_date with
    | Some d => d
    | None => get_current_date dp
    end in
  '(expiry_date, work) ← resolve_expiry db work jurisdiction;
  match expiry_date with
  | None => Ok (None, work)
  | Some e =>
      status ← determine_status db dp work jurisdiction (Some current_date);
      if String.eqb status "Public Domain" then Ok (None, work)
      else
        let days := days_between e current_date in
        Ok (if 0 <=? days then Some days else None, work)
  end.

(** ** Notions used to state the properties *)

(** The years of the death dates that are known, in author order. *)
Definition known_death_years (authors : list Author.t) : list Z :=
  omap (λ a, year <$> Author.death_date a) authors.

(** The latest year among the authors' known death dates. *)
Definition max_death_year (work : Work.t) : option Z :=
  match known_death_years (Work.authors work) with
  | [] => None
  | y :: ys => Some (foldr Z.max y ys)
  end.

Definition has_known_death_date (work : Work.t) : Prop :=
  ∃ a, a ∈ Work.authors work ∧ is_Some (Author.death_date a).

Definition lacks_death_date (work : Work.t) : Prop :=
  ∃ a, a ∈ Work.authors work ∧ Author.death_date a = None.

(** The maximum of the years seen so far and of those still to come. *)
Definition running_max (acc : option Z) (ys : list Z) : option Z :=
  match acc with
  | Some x => Some (foldr Z.max x ys)
  | None =>
      match ys with
      | [] => None
      | y :: ys' => Some (foldr Z.max y ys')
      end
  end.

(** Whether a date falls on December 31. *)
Definition falls_on_dec31 (d : date) : Prop :=
  month d = 12 ∧ day d = 31.

(** A jurisdiction "with a persisted id" whose rule set has a rule of the
    given type. *)
Definition has_rule (db : Database) (j : Jurisdiction.t) (tag : string) : Prop :=
  ∃ jid rule,
    Jurisdiction.id j = Some jid ∧ jid ≠ 0
    ∧ rule ∈ get_copyright_rules_for_jurisdiction db jid
    ∧ CopyrightRule.rule_type rule = tag.

(** The outcomes of a computation that ends in [date(y, 12, 31)]: no
    date, a December 31, or an exception of the constructor. *)
Definition dec31_or_none (r : res (option date)) : Prop :=
  r = Ok None ∨ (∃ e, r = Raise e)
  ∨ ∃ y, MINYEAR ≤ y ≤ MAXYEAR ∧ r = Ok (Some (mkdate y 12 31)).

(** The extra day of a leap year. *)
Definition leap_day (y : Z) : Z := if _is_leap y then 1 else 0.

(** The jurisdiction [calculate_expiry] works with: the one passed in,
    else the work's primary jurisdiction. *)
Definition effective_jurisdiction
    (work : Work.t) (jurisdiction : option Jurisdiction.t)
  : option Jurisdiction.t :=
  match jurisdiction with
  | Some j => Some j
  | None => Work.primary_jurisdiction work
  end.

(** The years a December 31 expiry is counted from: the creation year
    or the latest known death year. *)
Definition base_year (work : Work.t) (y : Z) : Prop :=
  (∃ c, Work.creation_date work = Some c ∧ year c = y)
  ∨ max_death_year work = Some y.

(** The terms that can be added to it: the fixed 95 and 70 of the
    creation-date fallback and of the default, the term of the
    jurisdiction in effect, or the term of one of its rules. *)
Definition applicable_term
    (db : Database) (work : Work.t) (jurisdiction : option Jurisdiction.t)
    (t : Z) : Prop :=
  t = 95 ∨ t = 70
  ∨ ∃ j, effective_jurisdiction work jurisdiction = Some j
         ∧ (t = Jurisdiction.term_years_after_death j
            ∨ ∃ jid rule,
                Jurisdiction.id j = Some jid
                ∧ rule ∈ get_copyright_rules_for_jurisdiction db jid
                ∧ t = CopyrightRule.term_years rule).

(** A year that [calculate_expiry] can pass to [date(y, 12, 31)]. *)
Definition target_year
    (db : Database) (work : Work.t) (jurisdiction : option Jurisdiction.t)
    (y : Z) : Prop :=
  ∃ base t,
    base_year work base ∧ applicable_term db work jurisdiction t
    ∧ y = base + t.

(** The result is that of [date(y, 12, 31)] for a target year [y]. *)
Definition from_target_year
    (db : Database) (work : Work.t) (jurisdiction : option Jurisdiction.t)
    (r : res (option date)) : Prop :=
  ∃ y, target_year db work jurisdiction y ∧ r = end_of_year y.

(** No author has a known death date. *)
Definition no_death_dates (work : Work.t) : Prop :=
  ∀ a, a ∈ Work.authors work → Author.death_date a = None.

(** The first guard of [determine_status]: no jurisdiction is given and
    the work already has a status other than 'Unknown'. *)
Definition cached_global_status
    (work : Work.t) (jurisdiction : option Jurisdiction.t) : bool :=
  negb (is_some jurisdiction) && truthy_str (Work.status work)
  && negb (String.eqb (Work.status work) "Unknown").

(** The code under which [calculate_multi_jurisdiction_status] records a
    jurisdiction, if it records it at all. *)
Definition truthy_code (j : Jurisdiction.t) : option string :=
  match Jurisdiction.code j with
  | Some c => if truthy_str c then Some c else None
  | None => None
  end.

(** Whether the loop also writes the jurisdiction's status to the store:
    both ids are set. *)
Definition writes_status (work : Work.t) (j : Jurisdiction.t) : Prop :=
  (truthy_int (Work.id work) && truthy_int (Jurisdiction.id j) = true)
  ∧ is_Some (truthy_code j).

(** The codes that a pass over the catalogue records, in order. *)
Definition recorded_codes (l : list Jurisdiction.t) : list string :=
  omap truthy_code l.

(** Step 1 of [update_work_status]: a set expiry date is kept, an unset
    one is computed without a jurisdiction. *)
Definition expiry_after (db : Database) (work : Work.t) : res (option date) :=
  match Work.copyright_expiry_date work with
  | Some d => Ok (Some d)
  | None => calculate_expiry db work None
  end.

(** Step 4 of [update_work_status]: the primary jurisdiction afterwards. *)
Definition primary_after (work : Work.t) (l : list Jurisdiction.t)
  : option Jurisdiction.t :=
  match Work.primary_jurisdiction work with
  | Some p => Some p
  | None =>
      if nonempty (Work.authors work)
      then jurisdiction_of_nationality (Work.authors work) l
      else None
  end.

(** ** Sample data: the default catalogue of [initialize_default_jurisdictions]
    and a few works *)

Module Sample.

Definition US : Jurisdiction.t :=
  Jurisdiction.mk "United States" (Some 1) (Some "US") 70 true.
Definition EU : Jurisdiction.t :=
  Jurisdiction.mk "European Union" (Some 2) (Some "EU") 70 true.
Definition CA : Jurisdiction.t :=
  Jurisdiction.mk "Canada" (Some 3) (Some "CA") 50 false.
Definition GB : Jurisdiction.t :=
  Jurisdiction.mk "United Kingdom" (Some 4) (Some "GB") 70 true.
Definition JP : Jurisdiction.t :=
  Jurisdiction.mk "Japan" (Some 5) (Some "JP") 70 false.
Definition MX : Jurisdiction.t :=
  Jurisdiction.mk "Mexico" (Some 6) (Some "MX") 100 false.

Definition rules (jid : Z) : list CopyrightRule.t :=
  match jid with
  | 1 => [ CopyrightRule.mk "published_before_1923" 0;
           CopyrightRule.mk "corporate_works" 95;
           CopyrightRule.mk "published_1923_to_1977" 95 ]
  | 2 => [ CopyrightRule.mk "anonymous_works" 70;
           CopyrightRule.mk "collaborative_works" 70 ]
  | 4 => [ CopyrightRule.mk "crown_copyright" 50 ]
  | _ => []
  end.

(** [get_all_jurisdictions] orders by name. *)
Definition db : Database :=
  {| jurisdictions := [CA; EU; JP; MX; GB; US];
     copyright_rules := rules;
     work_jurisdiction_status := ∅;
     sqlite_errors := [] |}.

Definition dp : DateProvider :=
  {| _current_date_override := None; env_CURRENT_DATE := None |}.

Definition new_work (title : string) (authors : list Author.t)
    (creation_date : option date) : Work.t :=
  Work.mk title None authors creation_date None None "Unknown" ∅.

Definition stoker : Author.t :=
  Author.mk "Bram Stoker" (Some (mkdate 1912 4 20)) None.
Definition dracula : Work.t := new_work "Dracula" [stoker] None.

Definition author_a : Author.t :=
  Author.mk "Author A" (Some (mkdate 1970 12 31)) None.
Definition author_b : Author.t :=
  Author.mk "Author B (Living)" None None.

(** "PD Book" of the test suite: created 1920, author died 1970. *)
Definition pd_book : Work.t :=
  new_work "PD Book" [author_a] (Some (mkdate 1920 1 1)).

(** "PD Book" after [update_work_status] on 2025-04-30. *)
Definition pd_book_updated : Work.t :=
  Work.mk "PD Book" None [author_a] (Some (mkdate 1920 1 1))
    (Some (mkdate 2040 12 31)) None "Copyrighted"
    (list_to_map
       [("CA", "Public Domain"); ("EU", "Copyrighted"); ("JP", "Copyrighted");
        ("MX", "Copyrighted"); ("GB", "Copyrighted"); ("US", "Public Domain")]).

Definition joint_work : Work.t :=
  new_work "Joint Work" [author_a; author_b] None.

Definition anonymous_1950 : Work.t :=
  new_work "Anonymous" [] (Some (mkdate 1950 1 1)).

Definition no_dates : Work.t := new_work "Test Work with No Dates" [] None.

(** A stored work that carries a status but neither authors nor dates. *)
Definition stored_public_domain : Work.t :=
  Work.mk "Stored" (Some 7) [] None None None "Public Domain" ∅.

(** A work whose status and expiry were stored while it was still
    protected: the author died in 1970, life + 70 ends with 2040. *)
Definition stored_copyrighted : Work.t :=
  Work.mk "Copyrighted Book" (Some 8) [author_a] None
    (Some (mkdate 2040 12 31)) None "Copyrighted" ∅.

(** "Unknown Date Work" of the test suite. *)
Definition unknown_date_work : Work.t :=
  new_work "Unknown Date Work" [Author.mk "Author C (Unknown Dates)" None None]
    None.

End Sample.

(** ** Further functions of the scheduler and of its collaborators *)

(** [database.get_work_copyright_status_by_jurisdiction]: the row of the
    table that [set_work_copyright_status_by_jurisdiction] writes, or
    [None].  The ISO text form in which the expiry date is stored is not
    modelled. *)
Definition get_work_copyright_status_by_jurisdiction
    (db : Database) (work_id jurisdiction_id : Z)
  : option (string * option date) :=
  work_jurisdiction_status db !! (work_id, jurisdiction_id).

(** The loop of [get_works_by_status_in_jurisdiction] over the works. *)
Fixpoint matching_works
    (db : Database) (dp : DateProvider) (jurisdiction : Jurisdiction.t)
    (status : string) (all_works : list Work.t) : res (list Work.t) :=
  match all_works with
  | [] => Ok []
  | work :: rest =>
      work_status ← determine_status db dp work (Some jurisdiction) None;
      matching ← matching_works db dp jurisdiction status rest;
      Ok (if String.eqb work_status status then work :: matching else matching)
  end.

(** [get_works_by_status_in_jurisdiction]; [all_works] is what
    [database.get_all_works()] returns. *)
Definition get_works_by_status_in_jurisdiction
    (db : Database) (dp : DateProvider) (all_works : list Work.t)
    (jurisdiction_code status : string) : res (list Work.t) :=
  match List.find (λ j, ostr_eqb (Jurisdiction.code j) jurisdiction_code)
          (get_all_jurisdictions db) with
  | None => Ok []
  | Some jurisdiction => matching_works db dp jurisdiction status all_works
  end.

(** [Work.__post_init__] on the two fields it touches:
    [(publication_date, first_publication_date)]. *)
Definition post_init (publication_date first_publication_date : option date)
  : option date * option date :=
  match publication_date, first_publication_date with
  | Some p, None => (Some p, Some p)
  | None, Some f => (Some f, Some f)
  | _, _ => (publication_date, first_publication_date)
  end.

(** ** Further notions *)

(** The same work with another list of authors. *)
Definition with_authors (work : Work.t) (authors : list Author.t) : Work.t :=
  Work.mk (Work.title work) (Work.id work) authors (Work.creation_date work)
    (Work.copyright_expiry_date work) (Work.primary_jurisdiction work)
    (Work.status work) (Work.status_by_jurisdiction work).

(** The first rule of a given type in a rule set: the one the loops of
    [apply_special_rules] stop at. *)
Definition first_rule (rules : list CopyrightRule.t) (tag : string)
  : option CopyrightRule.t :=
  List.find (λ rule, String.eqb (CopyrightRule.rule_type rule) tag) rules.

(** An author's nationality is the code of a jurisdiction. *)
Definition nationality_matches (a : Author.t) (j : Jurisdiction.t) : Prop :=
  ∃ n, Author.nationality a = Some n ∧ n ≠ "" ∧ Jurisdiction.code j = Some n.

(** The closed set of status values. *)
Definition valid_status (s : string) : Prop :=
  s = "Public Domain" ∨ s = "Copyrighted" ∨ s = "Unknown".

(** The store accepts every write to come. *)
Definition no_sqlite_error (db : Database) : Prop :=
  Forall (λ raises, raises = false) (sqlite_errors db).

(** The list [calculate_multi_jurisdiction_status] iterates over. *)
Definition jurisdictions_or_all
    (db : Database) (jurisdictions : option (list Jurisdiction.t))
  : list Jurisdiction.t :=
  match jurisdictions with
  | Some (j :: l) => j :: l
  | _ => get_all_jurisdictions db
  end.

(** More sample data. *)
Module Sample2.

(** "Rule of Shorter Term" of the test suite: created 1950. *)
Definition work_1950 : Work.t :=
  Sample.new_work "Rule of Shorter Term" [Sample.author_a]
    (Some (mkdate 1950 1 1)).

Definition acme : Author.t := Author.mk "Acme Inc." None (Some "US").
Definition acme_manual : Work.t :=
  Sample.new_work "Manual" [acme] (Some (mkdate 1990 6 1)).

(** "Manual" after [update_work_status] on 2025-04-30. *)
Definition acme_manual_updated : Work.t :=
  Work.mk "Manual" None [acme] (Some (mkdate 1990 6 1))
    (Some (mkdate 2085 12 31)) (Some Sample.US) "Copyrighted"
    (list_to_map
       [("CA", "Copyrighted"); ("EU", "Copyrighted"); ("JP", "Copyrighted");
        ("MX", "Copyrighted"); ("GB", "Copyrighted"); ("US", "Copyrighted")]).

Definition author_c : Author.t :=
  Author.mk "Author C" (Some (mkdate 1980 3 5)) None.
Definition duet : Work.t :=
  Sample.new_work "Duet" [Sample.author_a; author_c] None.

Definition crown : Author.t := Author.mk "Crown" None (Some "GB").
Definition gazette : Work.t :=
  Sample.new_work "Gazette" [crown] (Some (mkdate 1960 1 1)).

(** A persisted copy of "PD Book". *)
Definition pd_book_saved : Work.t :=
  Work.mk "PD Book" (Some 11) [Sample.author_a] (Some (mkdate 1920 1 1))
    None None "Unknown" ∅.

(** The store after a pass over the catalogue for [pd_book_saved] on
    2025-04-30. *)
Definition db_after_pd_book : Database :=
  {| jurisdictions := jurisdictions Sample.db;
     copyright_rules := Sample.rules;
     work_jurisdiction_status :=
       list_to_map
         [((11, 3), ("Public Domain", Some (mkdate 2020 12 31)));
          ((11, 2), ("Copyrighted", Some (mkdate 2040 12 31)));
          ((11, 5), ("Copyrighted", Some (mkdate 2040 12 31)));
          ((11, 6), ("Copyrighted", Some (mkdate 2070 12 31)));
          ((11, 4), ("Copyrighted", Some (mkdate 2040 12 31)));
          ((11, 1), ("Public Domain", Some (mkdate 1923 1 1)))];
     sqlite_errors := [] |}.

(** The default catalogue on a store that refuses the sixth write. *)
Definition db_refusing_sixth : Database :=
  {| jurisdictions := jurisdictions Sample.db;
     copyright_rules := Sample.rules;
     work_jurisdiction_status := ∅;
     sqlite_errors := [false; false; false; false; false; true] |}.

End Sample2.

(** ** Tactics *)

Ltac break_match :=
  match goal with
  | |- context [match ?x with _ => _ end] => destruct x eqn:?
  end.

(** * Properties *)

(** ** Dates *)

Section DateOrder.

Lemma date_gtb_year (a b : date) : date_gtb a b = true → year b ≤ year a.
Proof.
  unfold date_gtb, _cmp.
  destruct (Z.compare_spec (year a) (year b)); try discriminate; lia.
Qed.

Lemma date_not_gtb_year (a b : date) : date_gtb a b = false → year a ≤ year b.
Proof.
  unfold date_gtb, _cmp.
  destruct (Z.compare_spec (year a) (year b)); intros; (lia || discriminate).
Qed.

Lemma _cmp_not_gt (a b : date) :
  _cmp a b ≠ Gt ↔
  year a < year b ∨
  (year a = year b ∧
   (month a < month b ∨ (month a = month b ∧ day a ≤ day b))).
Proof.
  unfold _cmp.
  destruct (Z.compare_spec (year a) (year b));
    destruct (Z.compare_spec (month a) (month b));
    destruct (Z.compare_spec (day a) (day b));
    split; intros; try congruence; try lia.
Qed.

Lemma _cmp_trans_le (a b c : date) :
  _cmp a b ≠ Gt → _cmp b c ≠ Gt → _cmp a c ≠ Gt.
Proof. rewrite !_cmp_not_gt. lia. Qed.

Lemma date_leb_trans (a b c : date) :
  date_leb a b = true → date_leb b c = true → date_leb a c = true.
Proof.
  unfold date_leb. intros Hab Hbc.
  assert (_cmp a c ≠ Gt) as H.
  { apply (_cmp_trans_le a b c).
    - destruct (_cmp a b); congruence.
    - destruct (_cmp b c); congruence. }
  destruct (_cmp a c); congruence.
Qed.

Lemma date_geb_leb (a b : date) : date_geb a b = date_leb b a.
Proof.
  unfold date_geb, date_leb, _cmp.
  rewrite (Z.compare_antisym (year a) (year b)),
          (Z.compare_antisym (month a) (month b)),
          (Z.compare_antisym (day a) (day b)).
  destruct (year a ?= year b), (month a ?= month b), (day a ?= day b);
    reflexivity.
Qed.

End DateOrder.

(** ** The loop over the authors *)


Section AuthorLoop.

Lemma foldr_max_ge (y : Z) (ys : list Z) :
  y ≤ foldr Z.max y ys ∧ ∀ z, z ∈ ys → z ≤ foldr Z.max y ys.
Proof.
  induction ys as [|x ys [IH1 IH2]]; simpl.
  - split; [lia|]. intros z Hz. inversion Hz.
  - split; [lia|]. intros z Hz.
    apply elem_of_cons in Hz as [->|Hz]; [lia|].
    specialize (IH2 z Hz). lia.
Qed.

Lemma foldr_max_in (y : Z) (ys : list Z) :
  foldr Z.max y ys ∈ y :: ys.
Proof.
  induction ys as [|x ys IH]; simpl.
  - left.
  - destruct (Z.max_spec x (foldr Z.max y ys)) as [[_ ->]|[_ ->]].
    + apply elem_of_cons in IH as [->|IH].
      * left.
      * right. right. exact IH.
    + right. left.
Qed.

Lemma foldr_max_acc (a b : Z) (ys : list Z) :
  foldr Z.max (Z.max a b) ys = Z.max b (foldr Z.max a ys).
Proof. induction ys as [|x ys IH]; simpl; lia. Qed.


Lemma known_death_years_cons (a : Author.t) (l : list Author.t) :
  known_death_years (a :: l)
  = match Author.death_date a with
    | Some d => year d :: known_death_years l
    | None => known_death_years l
    end.
Proof.
  unfold known_death_years. cbn.
  destruct (Author.death_date a); reflexivity.
Qed.

Lemma fold_death_date_step_year (l : list Author.t) :
  ∀ (acc : option date) (b : bool),
    year <$> (fold_left death_date_step l (acc, b)).1
    = running_max (year <$> acc) (known_death_years l).
Proof.
  induction l as [|a l IH]; intros acc b.
  - destruct acc; reflexivity.
  - cbn [fold_left]. rewrite known_death_years_cons.
    unfold death_date_step at 2.
    destruct (Author.death_date a) as [d|].
    + destruct acc as [x|].
      * destruct (date_gtb d x) eqn:Hgt; rewrite IH; cbn.
        -- apply date_gtb_year in Hgt. f_equal.
           rewrite <- foldr_max_acc. f_equal. lia.
        -- apply date_not_gtb_year in Hgt. f_equal.
           rewrite <- foldr_max_acc. f_equal. lia.
      * rewrite IH. reflexivity.
    + rewrite IH. reflexivity.
Qed.

Lemma fold_death_date_step_all (l : list Author.t) :
  ∀ (acc : option date) (b : bool),
    (fold_left death_date_step l (acc, b)).2
    = b && forallb (λ a, is_some (Author.death_date a)) l.
Proof.
  induction l as [|a l IH]; intros acc b.
  - cbn. destruct b; reflexivity.
  - cbn [fold_left forallb]. unfold death_date_step at 2.
    destruct (Author.death_date a) as [d|]; cbn [is_some].
    + destruct acc as [x|]; [destruct (date_gtb d x)|]; rewrite IH;
        reflexivity.
    + rewrite IH. destruct b; reflexivity.
Qed.

Lemma scan_death_dates_year (authors : list Author.t) :
  year <$> (scan_death_dates authors).1
  = running_max None (known_death_years authors).
Proof. apply (fold_death_date_step_year authors None true). Qed.

Lemma known_death_years_nil (authors : list Author.t) :
  known_death_years authors = [] ↔
  ∀ a, a ∈ authors → Author.death_date a = None.
Proof.
  induction authors as [|a l IH].
  - split; [intros _ a Ha; inversion Ha | reflexivity].
  - rewrite known_death_years_cons.
    destruct (Author.death_date a) as [d|] eqn:Hd.
    + split; [discriminate|]. intros H.
      specialize (H a (list_elem_of_here _ _)). congruence.
    + rewrite IH. split.
      * intros H x Hx. apply elem_of_cons in Hx as [->|Hx]; auto.
      * intros H x Hx. apply H. by right.
Qed.

Lemma scan_death_dates_none (authors : list Author.t) :
  (scan_death_dates authors).1 = None ↔
  ∀ a, a ∈ authors → Author.death_date a = None.
Proof.
  rewrite <- known_death_years_nil.
  pose proof (scan_death_dates_year authors) as H.
  destruct (scan_death_dates authors).1, (known_death_years authors);
    cbn in H; split; congruence.
Qed.

Lemma max_death_year_known (work : Work.t) :
  has_known_death_date work →
  ∃ l y, (scan_death_dates (Work.authors work)).1 = Some l
         ∧ year l = y ∧ max_death_year work = Some y.
Proof.
  intros (a & Ha & [d Hd]).
  pose proof (scan_death_dates_year (Work.authors work)) as H.
  destruct (scan_death_dates (Work.authors work)).1 as [l|] eqn:Hscan.
  - exists l, (year l). split; [reflexivity|]. split; [reflexivity|].
    unfold max_death_year. cbn in H.
    destruct (known_death_years (Work.authors work)); cbn in H; congruence.
  - destruct (scan_death_dates_none (Work.authors work)) as [Hn _].
    rewrite (Hn Hscan a Ha) in Hd. discriminate.
Qed.

(** [max_death_year] is an upper bound of the known death years and is
    one of them. *)
Lemma max_death_year_spec (work : Work.t) (y : Z) :
  max_death_year work = Some y →
  y ∈ known_death_years (Work.authors work) ∧
  ∀ z, z ∈ known_death_years (Work.authors work) → z ≤ y.
Proof.
  unfold max_death_year.
  destruct (known_death_years (Work.authors work)) as [|x ys];
    [discriminate|].
  intros [= <-]. split; [apply foldr_max_in|].
  intros z Hz. destruct (foldr_max_ge x ys) as [H1 H2].
  apply elem_of_cons in Hz as [->|Hz]; auto.
Qed.

End AuthorLoop.


(** ** [calculate_standard_expiry] *)

Lemma new_date_dec31_in_range (y : Z) :
  MINYEAR ≤ y ≤ MAXYEAR → new_date y 12 31 = Ok (mkdate y 12 31).
Proof.
  unfold MINYEAR, MAXYEAR. intros [Hlo Hhi].
  unfold new_date, _check_date_fields, _fits_int, MINYEAR, MAXYEAR,
    INT_MIN, INT_MAX.
  replace (_days_in_month y 12) with 31 by reflexivity.
  repeat match goal with
         | |- context [?a <=? ?b] =>
             destruct (Z.leb_spec a b); try lia
         end.
  reflexivity.
Qed.

Lemma new_date_dec31_out_of_range (y : Z) :
  ¬ (MINYEAR ≤ y ≤ MAXYEAR) →
  new_date y 12 31
  = Raise (if _fits_int y then ValueError else OverflowError).
Proof.
  unfold MINYEAR, MAXYEAR. intros Hout.
  unfold new_date, _check_date_fields, MINYEAR, MAXYEAR.
  replace (_fits_int 12) with true by reflexivity.
  replace (_fits_int 31) with true by reflexivity.
  rewrite !andb_true_r.
  destruct (_fits_int y); [|reflexivity].
  destruct (Z.leb_spec 1 y), (Z.leb_spec y 9999); try lia; reflexivity.
Qed.

Lemma end_of_year_in_range (y : Z) :
  MINYEAR ≤ y ≤ MAXYEAR → end_of_year y = Ok (Some (mkdate y 12 31)).
Proof.
  intros Hy. unfold end_of_year. rewrite new_date_dec31_in_range by exact Hy.
  reflexivity.
Qed.

Lemma end_of_year_out_of_range (y : Z) :
  ¬ (MINYEAR ≤ y ≤ MAXYEAR) →
  end_of_year y = Raise (if _fits_int y then ValueError else OverflowError).
Proof.
  intros Hy. unfold end_of_year.
  rewrite new_date_dec31_out_of_range by exact Hy. reflexivity.
Qed.

Lemma in_year_range_dec (y : Z) :
  (MINYEAR ≤ y ≤ MAXYEAR) ∨ ¬ (MINYEAR ≤ y ≤ MAXYEAR).
Proof. unfold MINYEAR, MAXYEAR. lia. Qed.

Lemma standard_expiry_of_death_year
    (work : Work.t) (jurisdiction : option Jurisdiction.t) (l : date) :
  (scan_death_dates (Work.authors work)).1 = Some l →
  calculate_standard_expiry work jurisdiction
  = end_of_year (year l +
      match jurisdiction with
      | Some j => Jurisdiction.term_years_after_death j
      | None => 70
      end).
Proof.
  intros Hscan. unfold calculate_standard_expiry.
  destruct (Work.authors work) as [|a rest] eqn:Ha.
  - discriminate Hscan.
  - cbn [nonempty].
    destruct (scan_death_dates (a :: rest)) as [latest all_have].
    cbn in Hscan. subst latest. reflexivity.
Qed.

(** C1: when at least one author has a known death date,
    [calculate_standard_expiry(work, j)] is
    [date(max_death_year + j.term_years_after_death, 12, 31)], where
    [max_death_year] is the latest year among the known death dates
    (authors without one are ignored) and the term is 70 when no
    jurisdiction is given.  The result does not depend on any special
    rule.  When the target year is a year [date] accepts, the call
    returns that December 31. *)
Theorem C1_standard_expiry_life_plus_term
    (work : Work.t) (jurisdiction : option Jurisdiction.t) :
  has_known_death_date work →
  ∃ y term,
    max_death_year work = Some y
    ∧ term = match jurisdiction with
             | Some j => Jurisdiction.term_years_after_death j
             | None => 70
             end
    ∧ calculate_standard_expiry work jurisdiction
      = (d ← new_date (y + term) 12 31; Ok (Some d))
    ∧ (MINYEAR ≤ y + term ≤ MAXYEAR →
       calculate_standard_expiry work jurisdiction
       = Ok (Some (mkdate (y + term) 12 31))).
Proof.
  intros Hknown.
  destruct (max_death_year_known work Hknown) as (l & y & Hscan & Hy & Hmax).
  exists y, (match jurisdiction with
             | Some j => Jurisdiction.term_years_after_death j
             | None => 70
             end).
  split; [exact Hmax|]. split; [reflexivity|].
  rewrite (standard_expiry_of_death_year work jurisdiction l Hscan), Hy.
  split; [reflexivity|]. apply end_of_year_in_range.
Qed.

Lemma C1_witness_dracula :
  has_known_death_date Sample.dracula
  ∧ ∃ y term,
      max_death_year Sample.dracula = Some y
      ∧ term = 70
      ∧ calculate_standard_expiry Sample.dracula (Some Sample.GB)
        = (d ← new_date (y + term) 12 31; Ok (Some d))
      ∧ (MINYEAR ≤ y + term ≤ MAXYEAR →
         calculate_standard_expiry Sample.dracula (Some Sample.GB)
         = Ok (Some (mkdate (y + term) 12 31))).
Proof.
  assert (has_known_death_date Sample.dracula) as H.
  { exists Sample.stoker. split; [left | eexists; reflexivity]. }
  split; [exact H|].
  exact (C1_standard_expiry_life_plus_term Sample.dracula (Some Sample.GB) H).
Defined.

(** ** Loops with an early [return] *)

Section ForReturn.
Context {A R : Type}.
Implicit Types (l : list A) (body : A → option R).

Lemma for_return_Some l body r :
  for_return l body = Some r → ∃ x, x ∈ l ∧ body x = Some r.
Proof.
  induction l as [|x l IH]; cbn; [discriminate|].
  destruct (body x) as [r'|] eqn:Hx.
  - intros [= <-]. exists x. split; [left | exact Hx].
  - intros H. destruct (IH H) as (y & Hy & Hb).
    exists y. split; [by right | exact Hb].
Qed.

Lemma for_return_None l body :
  (∀ x, x ∈ l → body x = None) → for_return l body = None.
Proof.
  induction l as [|x l IH]; cbn; [reflexivity|]. intros H.
  rewrite (H x (list_elem_of_here _ _)). apply IH.
  intros y Hy. apply H. by right.
Qed.

(** When every iteration that returns returns the same value, the loop
    returns it as soon as one iteration does. *)
Lemma for_return_const l body r :
  (∀ x, x ∈ l → body x = Some r ∨ body x = None) →
  (∃ x, x ∈ l ∧ body x = Some r) →
  for_return l body = Some r.
Proof.
  induction l as [|x l IH]; cbn; intros Hall (y & Hy & Hb).
  - inversion Hy.
  - destruct (Hall x (list_elem_of_here _ _)) as [-> | Hx]; [reflexivity|].
    rewrite Hx. apply IH.
    + intros z Hz. apply Hall. by right.
    + apply elem_of_cons in Hy as [-> | Hy]; [congruence|]. eauto.
Qed.

End ForReturn.

(** ** [apply_special_rules] and [calculate_expiry] *)


Lemma special_rules_before_1923
    (db : Database) (work : Work.t) (j : Jurisdiction.t) (c : date) :
  Work.creation_date work = Some c → year c < 1923 →
  Jurisdiction.code j = Some "US" →
  has_rule db j "published_before_1923" →
  apply_special_rules db work j = Ok (Some (mkdate 1923 1 1)).
Proof.
  intros Hc Hy Hcode (jid & rule & Hid & Hnz & Hin & Htag).
  unfold apply_special_rules. rewrite Hid, Hcode, Hc.
  apply Z.eqb_neq in Hnz. rewrite Hnz.
  destruct (get_copyright_rules_for_jurisdiction db jid) as [|r0 rs] eqn:Hrules;
    [inversion Hin|].
  cbn [nonempty negb ostr_eqb]. rewrite String.eqb_refl.
  apply Z.ltb_lt in Hy. rewrite Hy.
  erewrite for_return_const; [reflexivity| |].
  - intros x _.
    destruct (String.eqb (CopyrightRule.rule_type x) "published_before_1923");
      [left; reflexivity | right; reflexivity].
  - exists rule. split; [exact Hin|]. rewrite Htag. reflexivity.
Qed.

(** C2: special rules take precedence over the standard calculation.
    For a work created in 1920 and a US jurisdiction with special rules,
    a persisted id and a [published_before_1923] rule, [calculate_expiry]
    returns [date(1923, 1, 1)], whatever the authors' death dates are. *)
Theorem C2_special_rule_precedence
    (db : Database) (work : Work.t) (j : Jurisdiction.t) (c : date) :
  Work.creation_date work = Some c → year c = 1920 →
  Jurisdiction.code j = Some "US" →
  Jurisdiction.has_special_rules j = true →
  has_rule db j "published_before_1923" →
  calculate_expiry db work (Some j) = Ok (Some (mkdate 1923 1 1)).
Proof.
  intros Hc Hy Hcode Hspecial Hrule.
  unfold calculate_expiry. rewrite Hspecial.
  rewrite (special_rules_before_1923 db work j c Hc); [reflexivity|lia|auto..].
Qed.

Lemma C2_witness_pd_book :
  (Work.creation_date Sample.pd_book = Some (mkdate 1920 1 1)
   ∧ has_rule Sample.db Sample.US "published_before_1923"
   ∧ calculate_standard_expiry Sample.pd_book (Some Sample.US)
     = Ok (Some (mkdate 2040 12 31)))
  ∧ calculate_expiry Sample.db Sample.pd_book (Some Sample.US)
    = Ok (Some (mkdate 1923 1 1)).
Proof.
  assert (has_rule Sample.db Sample.US "published_before_1923") as Hrule.
  { exists 1, (CopyrightRule.mk "published_before_1923" 0).
    split; [reflexivity|]. split; [lia|]. split; [left | reflexivity]. }
  split; [split; [reflexivity|]; split; [exact Hrule | reflexivity]|].
  apply (C2_special_rule_precedence Sample.db Sample.pd_book Sample.US
           (mkdate 1920 1 1));
    [reflexivity | reflexivity | reflexivity | reflexivity | exact Hrule].
Defined.
Lemma ostr_eqb_eq (o : option string) (s : string) :
  ostr_eqb o s = true ↔ o = Some s.
Proof.
  destruct o as [c|]; cbn; [|split; discriminate].
  rewrite String.eqb_eq. split; congruence.
Qed.


Lemma end_of_year_shape (y : Z) :
  end_of_year y = Ok (Some (mkdate y 12 31)) ∨ ∃ e, end_of_year y = Raise e.
Proof.
  destruct (in_year_range_dec y) as [Hy | Hy].
  - left. by apply end_of_year_in_range.
  - right. eexists. by apply end_of_year_out_of_range.
Qed.

Lemma end_of_year_dec31 (y : Z) : dec31_or_none (end_of_year y).
Proof.
  destruct (in_year_range_dec y) as [Hy | Hy].
  - right. right. exists y. split; [exact Hy | by apply end_of_year_in_range].
  - right. left. eexists. by apply end_of_year_out_of_range.
Qed.

Lemma dec31_or_none_valid (r : res (option date)) (d : date) :
  dec31_or_none r → r = Ok (Some d) → valid_date d ∧ falls_on_dec31 d.
Proof.
  intros [-> | [[e ->] | (y & [Hlo Hhi] & ->)]]; [discriminate..|].
  intros [= <-]. split; [|split; reflexivity].
  unfold valid_date, _check_date_fields. cbn.
  apply Z.leb_le in Hlo, Hhi. rewrite Hlo, Hhi. reflexivity.
Qed.

Lemma first_rule_expiry_dec31 rules tag y r :
  first_rule_expiry rules tag y = Some r → dec31_or_none r.
Proof.
  intros H. apply for_return_Some in H as (rule & _ & H).
  destruct (String.eqb _ _); [|discriminate].
  injection H as <-. apply end_of_year_dec31.
Qed.

Lemma apply_special_rules_shape db work j :
  dec31_or_none (apply_special_rules db work j)
  ∨ (apply_special_rules db work j = Ok (Some (mkdate 1923 1 1))
     ∧ Jurisdiction.code j = Some "US"
     ∧ ∃ c, Work.creation_date work = Some c ∧ year c < 1923).
Proof.
  unfold apply_special_rules, or_else.
  repeat break_match.
  all: try (left; left; reflexivity).
  all: repeat match goal with
       | H : match ?x with _ => _ end = Some _ |- _ =>
           destruct x eqn:?; try discriminate H
       end.
  all: try (left; eapply first_rule_expiry_dec31; eassumption).
  all: match goal with
       | H : for_return _ _ = Some _ |- _ =>
           apply for_return_Some in H as (rule & _ & H)
       end.
  all: repeat match goal with
       | H : match ?x with _ => _ end = Some _ |- _ =>
           destruct x eqn:?; try discriminate H
       end.
  all: match goal with H : Some _ = Some _ |- _ => injection H as <- end.
  all: try (left; apply end_of_year_dec31).
  right. split; [reflexivity|]. split; [by apply ostr_eqb_eq|].
  eexists. split; [reflexivity|]. by apply Z.ltb_lt.
Qed.

Lemma calculate_standard_expiry_dec31 work jurisdiction :
  dec31_or_none (calculate_standard_expiry work jurisdiction).
Proof.
  unfold calculate_standard_expiry, or_else.
  repeat break_match.
  all: repeat match goal with
       | H : match ?x with _ => _ end = Some _ |- _ =>
           destruct x eqn:?; try discriminate H
       end.
  all: try match goal with H : Some _ = Some _ |- _ => injection H as <- end.
  all: try apply end_of_year_dec31.
  all: left; reflexivity.
Qed.

Lemma scan_max_death_year (work : Work.t) (l : date) :
  (scan_death_dates (Work.authors work)).1 = Some l →
  max_death_year work = Some (year l).
Proof.
  intros H. pose proof (scan_death_dates_year (Work.authors work)) as Hy.
  rewrite H in Hy. unfold max_death_year. cbn in Hy.
  destruct (known_death_years (Work.authors work)); cbn in Hy; congruence.
Qed.

Lemma standard_expiry_target
    (db : Database) (work : Work.t) (jurisdiction : option Jurisdiction.t) :
  calculate_standard_expiry work (effective_jurisdiction work jurisdiction)
  = Ok None
  ∨ from_target_year db work jurisdiction
      (calculate_standard_expiry work
         (effective_jurisdiction work jurisdiction)).
Proof.
  unfold calculate_standard_expiry, from_target_year, target_year,
    applicable_term.
  destruct (effective_jurisdiction work jurisdiction) as [j|] eqn:Hj.
  - destruct (scan_death_dates (Work.authors work)) as [[l|] b] eqn:Hs.
    + destruct (nonempty (Work.authors work)); cbn [or_else].
      * right. eexists. split; [|reflexivity].
        exists (year l), (Jurisdiction.term_years_after_death j).
        split; [right; apply scan_max_death_year; by rewrite Hs|].
        split; [|reflexivity]. right. right. eauto.
      * destruct (Work.creation_date work) as [c|] eqn:Hc; [|by left].
        right. eexists. split; [|reflexivity].
        exists (year c). eexists. split; [left; eauto|].
        split; [|reflexivity].
        destruct (ostr_eqb _ "US"); [by left|].
        destruct (ostr_eqb _ "EU"); [by right; left|].
        right. right. eauto.
    + destruct (Work.creation_date work) as [c|] eqn:Hc.
      * right. eexists. split.
        2: { destruct (nonempty (Work.authors work)); cbn [is_some negb];
               rewrite ?andb_false_r; cbn [or_else]; reflexivity. }
        exists (year c). eexists. split; [left; eauto|].
        split; [|reflexivity].
        destruct (ostr_eqb _ "US"); [by left|].
        destruct (ostr_eqb _ "EU"); [by right; left|].
        right. right. eauto.
      * left. destruct (nonempty (Work.authors work)); [|reflexivity].
        destruct b; reflexivity.
  - destruct (scan_death_dates (Work.authors work)) as [[l|] b] eqn:Hs.
    + destruct (nonempty (Work.authors work)); cbn [or_else].
      * right. eexists. split; [|reflexivity].
        exists (year l), DEFAULT_TERM_YEARS.
        split; [right; apply scan_max_death_year; by rewrite Hs|].
        split; [|reflexivity]. right. by left.
      * destruct (Work.creation_date work) as [c|] eqn:Hc; [|by left].
        right. eexists. split; [|reflexivity].
        exists (year c), 95. split; [left; eauto|].
        split; [by left | reflexivity].
    + destruct (Work.creation_date work) as [c|] eqn:Hc.
      * right. eexists. split.
        2: { destruct (nonempty (Work.authors work)); cbn [is_some negb];
               rewrite ?andb_false_r; cbn [or_else]; reflexivity. }
        exists (year c), 95. split; [left; eauto|].
        split; [by left | reflexivity].
      * left. destruct (nonempty (Work.authors work)); [|reflexivity].
        destruct b; reflexivity.
Qed.

Lemma from_target_year_intro
    (db : Database) (work : Work.t) (jurisdiction : option Jurisdiction.t)
    (base t : Z) :
  base_year work base → applicable_term db work jurisdiction t →
  from_target_year db work jurisdiction (end_of_year (base + t)).
Proof.
  intros Hb Ht. exists (base + t). split; [|reflexivity].
  exists base, t. auto.
Qed.

Lemma first_rule_expiry_Some rules tag y r :
  first_rule_expiry rules tag y = Some r →
  ∃ rule, rule ∈ rules ∧ r = end_of_year (y + CopyrightRule.term_years rule).
Proof.
  intros H. apply for_return_Some in H as (rule & Hin & H).
  destruct (String.eqb _ _); [|discriminate].
  injection H as <-. eauto.
Qed.

Lemma special_rules_target
    (db : Database) (work : Work.t) (jurisdiction : option Jurisdiction.t)
    (j : Jurisdiction.t) :
  effective_jurisdiction work jurisdiction = Some j →
  apply_special_rules db work j = Ok None
  ∨ from_target_year db work jurisdiction (apply_special_rules db work j)
  ∨ (apply_special_rules db work j = Ok (Some (mkdate 1923 1 1))
     ∧ Jurisdiction.code j = Some "US"
     ∧ ∃ c, Work.creation_date work = Some c ∧ year c < 1923).
Proof.
  intros Hj.
  unfold apply_special_rules.
  destruct (Jurisdiction.id j) as [jid|] eqn:Hid; [|by left].
  assert (∀ rule,
            rule ∈ get_copyright_rules_for_jurisdiction db jid →
            applicable_term db work jurisdiction
              (CopyrightRule.term_years rule)) as Hterm.
  { intros rule Hin. right. right. exists j. split; [exact Hj|].
    right. eauto. }
  unfold or_else.
  repeat break_match.
  all: try (left; reflexivity).
  all: repeat match goal with
       | H : match ?x with _ => _ end = Some _ |- _ =>
           destruct x eqn:?; try discriminate H
       end.
  all: try match goal with
       | H : first_rule_expiry _ _ _ = Some _ |- _ =>
           apply first_rule_expiry_Some in H as (rule & Hin & ->)
       end.
  all: try match goal with
       | H : for_return _ _ = Some _ |- _ =>
           apply for_return_Some in H as (rule & Hin & H)
       end.
  all: repeat match goal with
       | H : match ?x with _ => _ end = Some _ |- _ =>
           destruct x eqn:?; try discriminate H
       end.
  all: try match goal with H : Some _ = Some _ |- _ => injection H as <- end.
  all: try (right; left; apply from_target_year_intro;
            [first [ solve [left; eauto]
                   | right; apply scan_max_death_year;
                     match goal with
                     | H : scan_death_dates _ = _ |- _ => by rewrite H
                     end ]
            | by apply Hterm ]).
  right. right. split; [reflexivity|]. split; [by apply ostr_eqb_eq|].
  eexists. split; [reflexivity|]. by apply Z.ltb_lt.
Qed.

(** C3 (amended): [calculate_expiry] yields no date, or, only for a work
    created before 1923 under a US jurisdiction with special rules, the
    fixed date January 1, 1923, or else it builds [date(y, 12, 31)] for a
    target year [y]: the creation year or the latest known death year,
    plus an applicable term.  For [y] in 1..9999 the result is that
    December 31; only for [y] outside 1..9999 does the call not return,
    the [date] constructor raising [ValueError], or [OverflowError] when
    [y] does not fit a C [int]. *)
Theorem C3_expiry_dec31_or_fixed_1923
    (db : Database) (work : Work.t) (jurisdiction : option Jurisdiction.t) :
  calculate_expiry db work jurisdiction = Ok None
  ∨ (calculate_expiry db work jurisdiction = Ok (Some (mkdate 1923 1 1))
     ∧ ∃ j c, effective_jurisdiction work jurisdiction = Some j
              ∧ Jurisdiction.code j = Some "US"
              ∧ Jurisdiction.has_special_rules j = true
              ∧ Work.creation_date work = Some c ∧ year c < 1923)
  ∨ ∃ y, target_year db work jurisdiction y
         ∧ ((MINYEAR ≤ y ≤ MAXYEAR
             ∧ ∃ d, calculate_expiry db work jurisdiction = Ok (Some d)
                    ∧ falls_on_dec31 d ∧ year d = y)
            ∨ (¬ (MINYEAR ≤ y ≤ MAXYEAR)
               ∧ calculate_expiry db work jurisdiction
                 = Raise (if _fits_int y then ValueError
                          else OverflowError))).
Proof.
  assert (∀ r, from_target_year db work jurisdiction r →
            ∃ y, target_year db work jurisdiction y
                 ∧ ((MINYEAR ≤ y ≤ MAXYEAR
                     ∧ ∃ d, r = Ok (Some d) ∧ falls_on_dec31 d ∧ year d = y)
                    ∨ (¬ (MINYEAR ≤ y ≤ MAXYEAR)
                       ∧ r = Raise (if _fits_int y then ValueError
                                    else OverflowError)))) as Hty.
  { intros r (y & Hy & ->). exists y. split; [exact Hy|].
    destruct (in_year_range_dec y) as [Hr | Hr].
    - left. split; [exact Hr|]. exists (mkdate y 12 31).
      split; [by apply end_of_year_in_range|]. by repeat split.
    - right. split; [exact Hr|]. by apply end_of_year_out_of_range. }
  pose proof (standard_expiry_target db work jurisdiction) as Hstd.
  unfold calculate_expiry. fold (effective_jurisdiction work jurisdiction).
  destruct (effective_jurisdiction work jurisdiction) as [j|] eqn:Hj.
  2: { cbn. destruct Hstd as [-> | H]; [by left|]. right. right. by apply Hty. }
  destruct (Jurisdiction.has_special_rules j) eqn:Hs.
  2: { cbn. destruct Hstd as [-> | H]; [by left|]. right. right. by apply Hty. }
  pose proof (special_rules_target db work jurisdiction j) as Hsp.
  rewrite Hj in Hsp. specialize (Hsp eq_refl).
  destruct Hsp as [Hr | [Hr | (Hr & Hcode & c & Hc & Hy)]].
  - rewrite Hr. cbn.
    destruct Hstd as [-> | H]; [by left|]. right. right. by apply Hty.
  - right. right. destruct (Hty _ Hr) as (y & Hy & Hcase). exists y.
    split; [exact Hy|].
    destruct Hcase as [(Hin & d & -> & Hd) | (Hout & ->)]; cbn.
    + left. split; [exact Hin|]. by exists d.
    + by right.
  - rewrite Hr. cbn. right. left. split; [reflexivity|]. exists j, c. auto.
Qed.

(** C3, as stated, fails on the US pre-1923 rule. *)
Lemma C3_counterexample_pd_book :
  ¬ (calculate_expiry Sample.db Sample.pd_book (Some Sample.US) = Ok None
     ∨ ∃ d, calculate_expiry Sample.db Sample.pd_book (Some Sample.US)
            = Ok (Some d)
            ∧ falls_on_dec31 d).
Proof.
  intros [H | (d & H & Hm & _)]; vm_compute in H; [discriminate|].
  injection H as <-. discriminate Hm.
Qed.


(** ** The creation-date fallback of [calculate_standard_expiry] *)

Lemma not_known_scan (work : Work.t) :
  ¬ has_known_death_date work →
  (scan_death_dates (Work.authors work)).1 = None.
Proof.
  intros Hno. apply scan_death_dates_none. intros a Ha.
  destruct (Author.death_date a) as [d|] eqn:Hd; [|reflexivity].
  exfalso. apply Hno. exists a. split; [exact Ha | rewrite Hd; eauto].
Qed.

Lemma standard_expiry_creation_fallback
    (work : Work.t) (jurisdiction : option Jurisdiction.t) (c : date) :
  ¬ has_known_death_date work →
  Work.creation_date work = Some c →
  calculate_standard_expiry work jurisdiction
  = end_of_year (year c +
      match jurisdiction with
      | Some j =>
          if ostr_eqb (Jurisdiction.code j) "US" then 95
          else if ostr_eqb (Jurisdiction.code j) "EU" then 70
          else Jurisdiction.term_years_after_death j
      | None => 95
      end).
Proof.
  intros Hno Hc. apply not_known_scan in Hno.
  unfold calculate_standard_expiry. rewrite Hc.
  destruct (scan_death_dates (Work.authors work)) as [latest all_have].
  cbn in Hno. subst latest. cbn [is_some negb].
  rewrite andb_false_r.
  destruct (nonempty (Work.authors work)); cbn [or_else];
    destruct jurisdiction; reflexivity.
Qed.

(** C4 (amended): in the creation-date fallback (no author death date
    is known, a creation date is present) the expiry is December 31 of
    [creation_year + term], where the term is 95 for code "US", 70 for
    code "EU", the jurisdiction's own [term_years_after_death] for any
    other jurisdiction, and 95 when no jurisdiction is given. *)
Theorem C4_creation_fallback_term
    (work : Work.t) (jurisdiction : option Jurisdiction.t) (c : date) :
  ¬ has_known_death_date work →
  Work.creation_date work = Some c →
  ∃ term,
    calculate_standard_expiry work jurisdiction
    = (d ← new_date (year c + term) 12 31; Ok (Some d))
    ∧ (jurisdiction = None → term = 95)
    ∧ ∀ j, jurisdiction = Some j →
        (Jurisdiction.code j = Some "US" → term = 95)
        ∧ (Jurisdiction.code j = Some "EU" → term = 70)
        ∧ (Jurisdiction.code j ≠ Some "US" → Jurisdiction.code j ≠ Some "EU" →
           term = Jurisdiction.term_years_after_death j).
Proof.
  intros Hno Hc.
  rewrite (standard_expiry_creation_fallback work jurisdiction c Hno Hc).
  eexists. split; [reflexivity|].
  destruct jurisdiction as [j|]; (split; [intros; congruence|]).
  - intros j' [= <-].
    destruct (ostr_eqb (Jurisdiction.code j) "US") eqn:Hus;
      [apply ostr_eqb_eq in Hus|];
      (destruct (ostr_eqb (Jurisdiction.code j) "EU") eqn:Heu;
       [apply ostr_eqb_eq in Heu|]).
    all: repeat split; intros; try reflexivity; try congruence.
    all: try (apply ostr_eqb_eq in H; congruence).
  - intros j [=].
Qed.

Lemma anonymous_1950_no_death_date : ¬ has_known_death_date Sample.anonymous_1950.
Proof. intros (a & Ha & _). inversion Ha. Qed.

Lemma C4_witness_canada :
  (¬ has_known_death_date Sample.anonymous_1950
   ∧ Work.creation_date Sample.anonymous_1950 = Some (mkdate 1950 1 1))
  ∧ ∃ term,
      calculate_standard_expiry Sample.anonymous_1950 (Some Sample.CA)
      = (d ← new_date (1950 + term) 12 31; Ok (Some d))
      ∧ (Some Sample.CA = None → term = 95)
      ∧ ∀ j, Some Sample.CA = Some j →
          (Jurisdiction.code j = Some "US" → term = 95)
          ∧ (Jurisdiction.code j = Some "EU" → term = 70)
          ∧ (Jurisdiction.code j ≠ Some "US" →
             Jurisdiction.code j ≠ Some "EU" →
             term = Jurisdiction.term_years_after_death j).
Proof.
  split; [split; [exact anonymous_1950_no_death_date | reflexivity]|].
  exact (C4_creation_fallback_term Sample.anonymous_1950 (Some Sample.CA)
           (mkdate 1950 1 1) anonymous_1950_no_death_date eq_refl).
Defined.

(** C4, as stated, fails for a jurisdiction other than US and EU: for
    Canada (term 50) the fallback gives 1950 + 50, not 1950 + 95. *)
Lemma C4_counterexample_canada :
  ¬ has_known_death_date Sample.anonymous_1950
  ∧ Work.creation_date Sample.anonymous_1950 = Some (mkdate 1950 1 1)
  ∧ Jurisdiction.code Sample.CA ≠ Some "US"
  ∧ Jurisdiction.code Sample.CA ≠ Some "EU"
  ∧ calculate_standard_expiry Sample.anonymous_1950 (Some Sample.CA)
    = Ok (Some (mkdate 2000 12 31))
  ∧ calculate_standard_expiry Sample.anonymous_1950 (Some Sample.CA)
    ≠ Ok (Some (mkdate (1950 + 95) 12 31)).
Proof.
  split; [exact anonymous_1950_no_death_date|].
  repeat split; try reflexivity; try discriminate.
Qed.

(** ** The collaborative branch *)

Lemma lacks_death_date_all (work : Work.t) :
  lacks_death_date work → (scan_death_dates (Work.authors work)).2 = false.
Proof.
  intros (a & Ha & Hd). unfold scan_death_dates.
  rewrite fold_death_date_step_all. cbn [andb].
  apply not_true_is_false. intros Hall.
  rewrite forallb_forall in Hall.
  apply list_elem_of_In in Ha. specialize (Hall a Ha).
  rewrite Hd in Hall. discriminate.
Qed.

Lemma special_rules_eu_missing_death_date
    (db : Database) (work : Work.t) (j : Jurisdiction.t) :
  (1 < length (Work.authors work))%nat →
  lacks_death_date work →
  Jurisdiction.code j = Some "EU" →
  apply_special_rules db work j = Ok None.
Proof.
  intros Hlen Hlack Hcode. apply lacks_death_date_all in Hlack.
  assert (ostr_eqb (Jurisdiction.code j) "US" = false) as Hus
    by (rewrite Hcode; reflexivity).
  assert (ostr_eqb (Jurisdiction.code j) "EU" = true) as Heu
    by (rewrite Hcode; reflexivity).
  unfold apply_special_rules. rewrite Hus, Heu.
  destruct (Jurisdiction.id j) as [jid|]; [|reflexivity].
  destruct (jid =? 0); [reflexivity|].
  destruct (negb _); [reflexivity|].
  destruct (Work.authors work) as [|a1 rest] eqn:Hauthors; [cbn in Hlen; lia|].
  cbn [nonempty negb].
  apply Nat.ltb_lt in Hlen. rewrite Hlen.
  destruct (Work.creation_date work); cbn [or_else].
  all: rewrite for_return_None; [reflexivity|].
  all: intros rule _.
  all: destruct (String.eqb _ _); [|reflexivity].
  all: destruct (scan_death_dates (a1 :: rest)) as [latest all_have].
  all: cbn in Hlack; subst all_have; destruct latest; reflexivity.
Qed.

(** C5: for a work with more than one author of which at least one
    lacks a death date, and an EU jurisdiction (with or without a
    [collaborative_works] rule), [apply_special_rules] returns [None];
    [calculate_expiry] then is [calculate_standard_expiry], which uses
    the latest death date among the authors that have one. *)
Theorem C5_collaborative_needs_all_death_dates
    (db : Database) (work : Work.t) (j : Jurisdiction.t) :
  (1 < length (Work.authors work))%nat →
  lacks_death_date work →
  Jurisdiction.code j = Some "EU" →
  apply_special_rules db work j = Ok None
  ∧ calculate_expiry db work (Some j) = calculate_standard_expiry work (Some j)
  ∧ (has_known_death_date work →
     ∃ y, max_death_year work = Some y
          ∧ calculate_standard_expiry work (Some j)
            = (d ← new_date (y + Jurisdiction.term_years_after_death j) 12 31;
               Ok (Some d))).
Proof.
  intros Hlen Hlack Hcode.
  pose proof (special_rules_eu_missing_death_date db work j Hlen Hlack Hcode)
    as Hspecial.
  split; [exact Hspecial|]. split.
  - unfold calculate_expiry. rewrite Hspecial.
    destruct (Jurisdiction.has_special_rules j); reflexivity.
  - intros Hknown.
    destruct (max_death_year_known work Hknown) as (l & y & Hscan & Hy & Hmax).
    exists y. split; [exact Hmax|].
    rewrite (standard_expiry_of_death_year work (Some j) l Hscan), Hy.
    reflexivity.
Qed.

Lemma C5_witness_joint_work :
  ((1 < length (Work.authors Sample.joint_work))%nat
   ∧ lacks_death_date Sample.joint_work
   ∧ has_rule Sample.db Sample.EU "collaborative_works")
  ∧ apply_special_rules Sample.db Sample.joint_work Sample.EU = Ok None
  ∧ calculate_expiry Sample.db Sample.joint_work (Some Sample.EU)
    = calculate_standard_expiry Sample.joint_work (Some Sample.EU)
  ∧ (has_known_death_date Sample.joint_work →
     ∃ y, max_death_year Sample.joint_work = Some y
          ∧ calculate_standard_expiry Sample.joint_work (Some Sample.EU)
            = (d ← new_date (y + 70) 12 31; Ok (Some d))).
Proof.
  assert ((1 < length (Work.authors Sample.joint_work))%nat) as Hlen
    by (cbn; lia).
  assert (lacks_death_date Sample.joint_work) as Hlack.
  { exists Sample.author_b. split; [right; left | reflexivity]. }
  split.
  - split; [exact Hlen|]. split; [exact Hlack|].
    exists 2, (CopyrightRule.mk "collaborative_works" 70).
    split; [reflexivity|]. split; [lia|]. split; [right; left | reflexivity].
  - exact (C5_collaborative_needs_all_death_dates Sample.db Sample.joint_work
             Sample.EU Hlen Hlack eq_refl).
Defined.

(** ** When no expiry can be computed *)

Lemma end_of_year_not_None (y : Z) : end_of_year y ≠ Ok None.
Proof. destruct (end_of_year_shape y) as [-> | [e ->]]; discriminate. Qed.

Lemma standard_expiry_None_inv
    (work : Work.t) (jurisdiction : option Jurisdiction.t) :
  calculate_standard_expiry work jurisdiction = Ok None →
  Work.creation_date work = None ∧ no_death_dates work.
Proof.
  unfold calculate_standard_expiry, no_death_dates. intros H.
  rewrite <- scan_death_dates_none.
  destruct (Work.authors work) as [|a rest] eqn:Ha; cbn [nonempty or_else] in H.
  - split; [|reflexivity].
    destruct (Work.creation_date work); [|reflexivity].
    by apply end_of_year_not_None in H.
  - destruct (scan_death_dates (a :: rest)) as [[l|] all_have];
      cbn [or_else] in H.
    + by apply end_of_year_not_None in H.
    + split; [|reflexivity].
      destruct (Work.creation_date work); [|reflexivity].
      rewrite andb_false_r in H. cbn [or_else] in H.
      by apply end_of_year_not_None in H.
Qed.

Lemma standard_expiry_no_dates
    (work : Work.t) (jurisdiction : option Jurisdiction.t) :
  Work.creation_date work = None → no_death_dates work →
  calculate_standard_expiry work jurisdiction = Ok None.
Proof.
  intros Hc Hd. apply scan_death_dates_none in Hd.
  unfold calculate_standard_expiry. rewrite Hc.
  destruct (scan_death_dates (Work.authors work)) as [latest all_have].
  cbn in Hd. subst latest.
  destruct (nonempty (Work.authors work)); [|reflexivity].
  destruct all_have; reflexivity.
Qed.

Lemma special_rules_no_dates
    (db : Database) (work : Work.t) (j : Jurisdiction.t) :
  Work.creation_date work = None → no_death_dates work →
  apply_special_rules db work j = Ok None.
Proof.
  intros Hc Hd. apply scan_death_dates_none in Hd.
  unfold apply_special_rules. rewrite Hc.
  destruct (scan_death_dates (Work.authors work)) as [latest all_have].
  cbn in Hd. subst latest.
  destruct (Jurisdiction.id j) as [jid|]; [|reflexivity].
  cbn beta iota.
  rewrite !for_return_None.
  - unfold or_else. repeat break_match; try reflexivity.
    all: repeat match goal with
         | H : match ?x with _ => _ end = Some _ |- _ =>
             destruct x eqn:?; try discriminate H
         end.
  - intros rule _. destruct (String.eqb _ _); reflexivity.
  - intros rule _. reflexivity.
Qed.

Lemma calculate_expiry_no_dates
    (db : Database) (work : Work.t) (jurisdiction : option Jurisdiction.t) :
  Work.creation_date work = None → no_death_dates work →
  calculate_expiry db work jurisdiction = Ok None.
Proof.
  intros Hc Hd. unfold calculate_expiry.
  rewrite (standard_expiry_no_dates work _ Hc Hd).
  destruct (match jurisdiction with Some j => Some j | None => _ end) as [j|];
    [|reflexivity].
  rewrite (special_rules_no_dates db work j Hc Hd).
  destruct (Jurisdiction.has_special_rules j); reflexivity.
Qed.

Lemma calculate_expiry_None_inv
    (db : Database) (work : Work.t) (jurisdiction : option Jurisdiction.t) :
  calculate_expiry db work jurisdiction = Ok None →
  Work.creation_date work = None ∧ no_death_dates work.
Proof.
  unfold calculate_expiry. intros H.
  apply (standard_expiry_None_inv work (effective_jurisdiction work jurisdiction)).
  unfold effective_jurisdiction.
  destruct (match jurisdiction with Some j => Some j | None => _ end) as [j|];
    [|exact H].
  destruct (if Jurisdiction.has_special_rules j then _ else _) as [[e|]|];
    cbn in H; [discriminate | exact H | discriminate].
Qed.

(** ** [determine_status] *)

(** C6: [determine_status] is monotone in time: once 'Public Domain' at
    [d1], it is 'Public Domain' at every [d2 >= d1]. *)
Theorem C6_status_monotone_in_time
    (db : Database) (dp : DateProvider) (work : Work.t)
    (jurisdiction : option Jurisdiction.t) (d1 d2 : date) :
  date_geb d2 d1 = true →
  determine_status db dp work jurisdiction (Some d1) = Ok "Public Domain" →
  determine_status db dp work jurisdiction (Some d2) = Ok "Public Domain".
Proof.
  intros Hge. rewrite date_geb_leb in Hge. unfold determine_status.
  destruct (_ && _ && _); [auto|].
  destruct (cached_jurisdiction_status work jurisdiction); [auto|].
  destruct (calculate_expiry db work jurisdiction) as [[e|]|]; cbn; auto.
  destruct (date_leb e d1) eqn:H1; [|discriminate].
  intros _. rewrite (date_leb_trans e d1 d2 H1 Hge). reflexivity.
Qed.

Lemma C6_witness_dracula :
  (date_geb (mkdate 2025 4 30) (mkdate 1990 1 1) = true
   ∧ determine_status Sample.db Sample.dp Sample.dracula (Some Sample.GB)
       (Some (mkdate 1990 1 1)) = Ok "Public Domain")
  ∧ determine_status Sample.db Sample.dp Sample.dracula (Some Sample.GB)
      (Some (mkdate 2025 4 30)) = Ok "Public Domain".
Proof.
  split; [split; reflexivity|].
  apply (C6_status_monotone_in_time Sample.db Sample.dp Sample.dracula
           (Some Sample.GB) (mkdate 1990 1 1) (mkdate 2025 4 30));
    reflexivity.
Defined.

Lemma determine_status_no_expiry
    (db : Database) (dp : DateProvider) (work : Work.t)
    (jurisdiction : option Jurisdiction.t) (current_date : option date) :
  calculate_expiry db work jurisdiction = Ok None →
  cached_global_status work jurisdiction = false →
  cached_jurisdiction_status work jurisdiction = None →
  determine_status db dp work jurisdiction current_date = Ok "Unknown".
Proof.
  intros Hcalc Hglobal Hcached. unfold determine_status.
  unfold cached_global_status in Hglobal. rewrite Hglobal, Hcached, Hcalc.
  apply calculate_expiry_None_inv in Hcalc as [Hc _].
  cbn. unfold historical_cutoff. rewrite Hc. reflexivity.
Qed.

Lemma determine_status_cached_global
    (db : Database) (dp : DateProvider) (work : Work.t)
    (jurisdiction : option Jurisdiction.t) (current_date : option date) :
  cached_global_status work jurisdiction = true →
  determine_status db dp work jurisdiction current_date = Ok (Work.status work).
Proof.
  unfold cached_global_status, determine_status. intros ->. reflexivity.
Qed.

Lemma determine_status_cached_jurisdiction
    (db : Database) (dp : DateProvider) (work : Work.t)
    (jurisdiction : option Jurisdiction.t) (current_date : option date)
    (s : string) :
  cached_global_status work jurisdiction = false →
  cached_jurisdiction_status work jurisdiction = Some s →
  determine_status db dp work jurisdiction current_date = Ok s.
Proof.
  unfold cached_global_status, determine_status. intros -> ->. reflexivity.
Qed.

(** C9 (amended): a work with zero authors and no creation date has no
    computable expiry in any jurisdiction, and its status resolves to
    'Unknown' unless a cached status applies (a status other than
    'Unknown' already on the work when no jurisdiction is given, or an
    entry for the jurisdiction's code in [status_by_jurisdiction]), in
    which case the cached value is returned. *)
Theorem C9_no_authors_no_creation_date
    (db : Database) (dp : DateProvider) (work : Work.t)
    (jurisdiction : option Jurisdiction.t) (current_date : option date) :
  Work.authors work = [] →
  Work.creation_date work = None →
  calculate_expiry db work jurisdiction = Ok None
  ∧ (cached_global_status work jurisdiction = false →
     cached_jurisdiction_status work jurisdiction = None →
     determine_status db dp work jurisdiction current_date = Ok "Unknown")
  ∧ (cached_global_status work jurisdiction = true →
     determine_status db dp work jurisdiction current_date
     = Ok (Work.status work))
  ∧ (∀ s, cached_global_status work jurisdiction = false →
          cached_jurisdiction_status work jurisdiction = Some s →
          determine_status db dp work jurisdiction current_date = Ok s).
Proof.
  intros Ha Hc.
  assert (calculate_expiry db work jurisdiction = Ok None) as Hcalc.
  { apply calculate_expiry_no_dates; [exact Hc|].
    intros a Hin. rewrite Ha in Hin. inversion Hin. }
  split; [exact Hcalc|]. split; [|split].
  - intros Hg Hj. by apply determine_status_no_expiry.
  - apply determine_status_cached_global.
  - intros s. apply determine_status_cached_jurisdiction.
Qed.

Lemma C9_witness_no_dates :
  (Work.authors Sample.no_dates = [] ∧ Work.creation_date Sample.no_dates = None)
  ∧ calculate_expiry Sample.db Sample.no_dates (Some Sample.US) = Ok None
  ∧ (cached_global_status Sample.no_dates (Some Sample.US) = false →
     cached_jurisdiction_status Sample.no_dates (Some Sample.US) = None →
     determine_status Sample.db Sample.dp Sample.no_dates (Some Sample.US) None
     = Ok "Unknown")
  ∧ (cached_global_status Sample.no_dates (Some Sample.US) = true →
     determine_status Sample.db Sample.dp Sample.no_dates (Some Sample.US) None
     = Ok (Work.status Sample.no_dates))
  ∧ (∀ s, cached_global_status Sample.no_dates (Some Sample.US) = false →
          cached_jurisdiction_status Sample.no_dates (Some Sample.US) = Some s →
          determine_status Sample.db Sample.dp Sample.no_dates (Some Sample.US)
            None = Ok s).
Proof.
  split; [split; reflexivity|].
  exact (C9_no_authors_no_creation_date Sample.db Sample.dp Sample.no_dates
           (Some Sample.US) None eq_refl eq_refl).
Defined.

(** C9, as stated, fails for a work that already carries a status: a
    work stored as 'Public Domain' without authors or creation date is
    classified 'Public Domain'. *)
Lemma C9_counterexample_cached_status :
  Work.authors Sample.stored_public_domain = []
  ∧ Work.creation_date Sample.stored_public_domain = None
  ∧ calculate_expiry Sample.db Sample.stored_public_domain None = Ok None
  ∧ determine_status Sample.db Sample.dp Sample.stored_public_domain None None
    = Ok "Public Domain"
  ∧ determine_status Sample.db Sample.dp Sample.stored_public_domain None None
    ≠ Ok "Unknown".
Proof. repeat split; try reflexivity. discriminate. Qed.

(** C10: when [calculate_expiry] returns [None] the work has no creation
    date; hence the historical cut-offs at the end of [determine_status]
    (created before 1875; US and created before 1927) never fire, and
    with no cached status [determine_status] returns 'Unknown'. *)
Theorem C10_no_expiry_implies_no_creation_date
    (db : Database) (dp : DateProvider) (work : Work.t)
    (jurisdiction : option Jurisdiction.t) (current_date : option date) :
  calculate_expiry db work jurisdiction = Ok None →
  Work.creation_date work = None
  ∧ historical_cutoff work jurisdiction = None
  ∧ (cached_global_status work jurisdiction = false →
     cached_jurisdiction_status work jurisdiction = None →
     determine_status db dp work jurisdiction current_date = Ok "Unknown").
Proof.
  intros Hcalc.
  destruct (calculate_expiry_None_inv db work jurisdiction Hcalc) as [Hc _].
  split; [exact Hc|]. split.
  - unfold historical_cutoff. rewrite Hc. reflexivity.
  - intros Hg Hj. by apply determine_status_no_expiry.
Qed.

Lemma C10_witness_unknown_dates :
  calculate_expiry Sample.db Sample.unknown_date_work (Some Sample.US) = Ok None
  ∧ Work.creation_date Sample.unknown_date_work = None
  ∧ historical_cutoff Sample.unknown_date_work (Some Sample.US) = None
  ∧ (cached_global_status Sample.unknown_date_work (Some Sample.US) = false →
     cached_jurisdiction_status Sample.unknown_date_work (Some Sample.US) = None →
     determine_status Sample.db Sample.dp Sample.unknown_date_work
       (Some Sample.US) None = Ok "Unknown").
Proof.
  split; [reflexivity|].
  exact (C10_no_expiry_implies_no_creation_date Sample.db Sample.dp
           Sample.unknown_date_work (Some Sample.US) None eq_refl).
Defined.

(** ** Ordinals of dates *)

Section Ordinal.

Lemma valid_date_bounds (d : date) :
  valid_date d →
  MINYEAR ≤ year d ≤ MAXYEAR ∧ 1 ≤ month d ≤ 12
  ∧ 1 ≤ day d ≤ _days_in_month (year d) (month d).
Proof.
  unfold valid_date, _check_date_fields. intros H.
  repeat (apply andb_prop in H as [H ?]).
  repeat match goal with H : (_ <=? _) = true |- _ => apply Z.leb_le in H end.
  lia.
Qed.

Lemma leap_day_range (y : Z) : 0 ≤ leap_day y ≤ 1.
Proof. unfold leap_day. destruct (_is_leap y); lia. Qed.

Lemma _days_before_year_succ (y : Z) :
  _days_before_year (y + 1) = _days_before_year y + 365 + leap_day y.
Proof.
  unfold _days_before_year, leap_day, _is_leap.
  replace (y + 1 - 1) with y by lia.
  destruct (Z.eqb_spec (y mod 4) 0), (Z.eqb_spec (y mod 100) 0),
    (Z.eqb_spec (y mod 400) 0); cbn [negb andb orb];
    Z.div_mod_to_equations; lia.
Qed.

Lemma _days_before_year_mono (y1 y2 : Z) :
  y1 ≤ y2 → _days_before_year y1 ≤ _days_before_year y2.
Proof.
  unfold _days_before_year. intros H. Z.div_mod_to_equations. lia.
Qed.

Lemma month_cases (m : Z) :
  1 ≤ m ≤ 12 →
  m = 1 ∨ m = 2 ∨ m = 3 ∨ m = 4 ∨ m = 5 ∨ m = 6
  ∨ m = 7 ∨ m = 8 ∨ m = 9 ∨ m = 10 ∨ m = 11 ∨ m = 12.
Proof. lia. Qed.

Lemma day_of_year_bounds (y m d : Z) :
  1 ≤ m ≤ 12 → 1 ≤ d ≤ _days_in_month y m →
  1 ≤ _days_before_month y m + d ≤ 365 + leap_day y.
Proof.
  intros Hm Hd. unfold _days_before_month, _days_in_month, leap_day in *.
  destruct (_is_leap y);
    destruct (month_cases m Hm) as [->|[->|[->|[->|[->|[->|[->|[->|[->|[->|[->| ->]]]]]]]]]]];
    cbn in *; lia.
Qed.

Lemma day_of_year_month_lt (y m1 d1 m2 d2 : Z) :
  1 ≤ m1 ≤ 12 → 1 ≤ m2 ≤ 12 →
  1 ≤ d1 ≤ _days_in_month y m1 → 1 ≤ d2 ≤ _days_in_month y m2 →
  m1 < m2 →
  _days_before_month y m1 + d1 < _days_before_month y m2 + d2.
Proof.
  intros Hm1 Hm2 Hd1 Hd2 Hlt.
  unfold _days_before_month, _days_in_month in *.
  destruct (_is_leap y);
    destruct (month_cases m1 Hm1) as [->|[->|[->|[->|[->|[->|[->|[->|[->|[->|[->| ->]]]]]]]]]]];
    destruct (month_cases m2 Hm2) as [->|[->|[->|[->|[->|[->|[->|[->|[->|[->|[->| ->]]]]]]]]]]];
    cbn in *; lia.
Qed.

Lemma toordinal_lt (a b : date) :
  valid_date a → valid_date b → _cmp a b = Lt → toordinal a < toordinal b.
Proof.
  intros Ha Hb Hcmp.
  apply valid_date_bounds in Ha as (Hya & Hma & Hda).
  apply valid_date_bounds in Hb as (Hyb & Hmb & Hdb).
  unfold toordinal, _ymd2ord. unfold _cmp in Hcmp.
  destruct (Z.compare_spec (year a) (year b)) as [Hy|Hy|Hy];
    [|clear Hcmp|discriminate].
  - rewrite Hy in *.
    destruct (Z.compare_spec (month a) (month b)) as [Hm|Hm|Hm];
      [|clear Hcmp|discriminate].
    + rewrite Hm in *. rewrite Z.compare_lt_iff in Hcmp. lia.
    + pose proof (day_of_year_month_lt (year b) (month a) (day a)
                    (month b) (day b) Hma Hmb Hda Hdb Hm). lia.
  - pose proof (day_of_year_bounds _ _ _ Hma Hda) as Ba.
    pose proof (day_of_year_bounds _ _ _ Hmb Hdb) as Bb.
    pose proof (_days_before_year_succ (year a)) as Hs.
    pose proof (_days_before_year_mono (year a + 1) (year b)). lia.
Qed.

Lemma _cmp_antisym (a b : date) : _cmp b a = CompOpp (_cmp a b).
Proof.
  unfold _cmp.
  rewrite (Z.compare_antisym (year a) (year b)),
          (Z.compare_antisym (month a) (month b)),
          (Z.compare_antisym (day a) (day b)).
  destruct (year a ?= year b), (month a ?= month b), (day a ?= day b);
    reflexivity.
Qed.

Lemma _cmp_Eq (a b : date) : _cmp a b = Eq → a = b.
Proof.
  unfold _cmp. destruct a as [ya ma da], b as [yb mb db]. cbn.
  destruct (Z.compare_spec ya yb); try discriminate.
  destruct (Z.compare_spec ma mb); try discriminate.
  destruct (Z.compare_spec da db); try discriminate.
  intros _. congruence.
Qed.

(** [(a - b).days] is negative exactly when [a < b]. *)
Lemma days_between_neg (a b : date) :
  valid_date a → valid_date b →
  (days_between a b < 0 ↔ date_ltb a b = true).
Proof.
  intros Ha Hb. unfold days_between, date_ltb.
  destruct (_cmp a b) eqn:Hcmp.
  - apply _cmp_Eq in Hcmp as ->. split; [lia | discriminate].
  - pose proof (toordinal_lt a b Ha Hb Hcmp). split; [reflexivity | lia].
  - assert (_cmp b a = Lt) as Hba by (rewrite _cmp_antisym, Hcmp; reflexivity).
    pose proof (toordinal_lt b a Hb Ha Hba). split; [lia | discriminate].
Qed.

End Ordinal.

(** ** [get_days_until_expiry] *)

Lemma calculate_expiry_valid
    (db : Database) (work : Work.t) (jurisdiction : option Jurisdiction.t)
    (d : date) :
  calculate_expiry db work jurisdiction = Ok (Some d) → valid_date d.
Proof.
  unfold calculate_expiry.
  set (j' := match jurisdiction with Some j => Some j | None => _ end).
  pose proof (calculate_standard_expiry_dec31 work j') as Hstd.
  intros H.
  assert (∀ special,
            special = Ok None ∨ (∃ x, special = Raise x)
            ∨ (∃ e, special = Ok (Some e) ∧ valid_date e) →
            (special ≫= λ s, match s with
                             | Some expiry_date => Ok (Some expiry_date)
                             | None => calculate_standard_expiry work j'
                             end) = Ok (Some d) →
            valid_date d) as Hgen.
  { intros special [-> | [[x ->] | (e & -> & He)]]; cbn.
    - intros Hd. by destruct (dec31_or_none_valid _ d Hstd Hd).
    - discriminate.
    - intros [= <-]. exact He. }
  eapply Hgen; [|exact H].
  destruct j' as [j|]; [|by left].
  destruct (Jurisdiction.has_special_rules j); [|by left].
  destruct (apply_special_rules_shape db work j)
    as [[Hr | [[x Hr] | (y & Hy & Hr)]] | (Hr & _)]; rewrite Hr.
  - by left.
  - right. left. by exists x.
  - right. right. eexists. split; [reflexivity|].
    apply (dec31_or_none_valid (Ok (Some (mkdate y 12 31)))); [|reflexivity].
    right. right. eauto.
  - right. right. eexists. split; reflexivity.
Qed.

Lemma resolve_expiry_valid
    (db : Database) (work work' : Work.t)
    (jurisdiction : option Jurisdiction.t) (e : date) :
  (∀ d, Work.copyright_expiry_date work = Some d → valid_date d) →
  resolve_expiry db work jurisdiction = Ok (Some e, work') →
  valid_date e.
Proof.
  intros Hcached. unfold resolve_expiry.
  destruct jurisdiction as [j|].
  - destruct (calculate_expiry db work (Some j)) as [[d|]|] eqn:Hcalc;
      intros H; cbn in H; try discriminate H.
    injection H as <- _. by apply calculate_expiry_valid in Hcalc.
  - destruct (Work.copyright_expiry_date work) as [d|] eqn:Hd.
    + intros H. cbn in H. rewrite Hd in H.
      injection H as <- _. by apply Hcached.
    + destruct (calculate_expiry db work None) as [[d|]|] eqn:Hcalc;
        intros H; cbn in H; try discriminate H.
      injection H as <- _. by apply calculate_expiry_valid in Hcalc.
Qed.

(** C8 (amended): [get_days_until_expiry] returns [None] exactly when
    the expiry date is unknown, the classified status is 'Public Domain',
    or the expiry date lies before the current date (which happens when a
    cached status or a cached expiry date is out of step); in every other
    case it returns the day difference, which is non-negative. *)
Theorem C8_days_until_expiry
    (db : Database) (dp : DateProvider) (work work' : Work.t)
    (jurisdiction : option Jurisdiction.t) (current_date : date)
    (expiry_date : option date) (status : string) :
  valid_date current_date →
  (∀ d, Work.copyright_expiry_date work = Some d → valid_date d) →
  resolve_expiry db work jurisdiction = Ok (expiry_date, work') →
  determine_status db dp work' jurisdiction (Some current_date) = Ok status →
  ∃ r,
    get_days_until_expiry db dp work jurisdiction (Some current_date)
    = Ok (r, work')
    ∧ (r = None ↔
       expiry_date = None ∨ status = "Public Domain"
       ∨ ∃ e, expiry_date = Some e ∧ date_ltb e current_date = true)
    ∧ (∀ n, r = Some n →
       ∃ e, expiry_date = Some e ∧ n = days_between e current_date ∧ 0 ≤ n).
Proof.
  intros Hcur Hcached Hresolve Hstatus.
  unfold get_days_until_expiry. rewrite Hresolve. cbn.
  destruct expiry_date as [e|]; cbn.
  - pose proof (resolve_expiry_valid db work work' jurisdiction e
                  Hcached Hresolve) as He.
    pose proof (days_between_neg e current_date He Hcur) as Hneg.
    rewrite Hstatus. cbn.
    destruct (String.eqb_spec status "Public Domain") as [Hpd|Hpd].
    + eexists. split; [reflexivity|]. split; [|discriminate].
      split; auto.
    + destruct (Z.leb_spec 0 (days_between e current_date)) as [Hnn|Hn].
      * eexists. split; [reflexivity|]. split.
        -- split; [discriminate|].
           intros [H | [H | (e' & [= <-] & Hlt)]];
             [discriminate | contradiction |].
           apply Hneg in Hlt. lia.
        -- intros n [= <-]. eauto.
      * eexists. split; [reflexivity|]. split; [|discriminate].
        split; auto. intros _. right. right. exists e.
        split; [reflexivity|]. by apply Hneg.
  - eexists. split; [reflexivity|]. split; [|discriminate].
    split; auto.
Qed.

Lemma C8_witness_dracula :
  (valid_date (mkdate 1950 6 1)
   ∧ resolve_expiry Sample.db Sample.dracula (Some Sample.GB)
     = Ok (Some (mkdate 1982 12 31), Sample.dracula)
   ∧ determine_status Sample.db Sample.dp Sample.dracula (Some Sample.GB)
       (Some (mkdate 1950 6 1)) = Ok "Copyrighted")
  ∧ ∃ r,
      get_days_until_expiry Sample.db Sample.dp Sample.dracula
        (Some Sample.GB) (Some (mkdate 1950 6 1))
      = Ok (r, Sample.dracula)
      ∧ (r = None ↔
         Some (mkdate 1982 12 31) = None ∨ "Copyrighted" = "Public Domain"
         ∨ ∃ e, Some (mkdate 1982 12 31) = Some e
                ∧ date_ltb e (mkdate 1950 6 1) = true)
      ∧ (∀ n, r = Some n →
         ∃ e, Some (mkdate 1982 12 31) = Some e
              ∧ n = days_between e (mkdate 1950 6 1) ∧ 0 ≤ n).
Proof.
  split; [repeat split; reflexivity|].
  apply (C8_days_until_expiry Sample.db Sample.dp Sample.dracula Sample.dracula
           (Some Sample.GB) (mkdate 1950 6 1) (Some (mkdate 1982 12 31))
           "Copyrighted").
  - reflexivity.
  - intros d Hd. discriminate Hd.
  - reflexivity.
  - reflexivity.
Defined.

(** C8, as stated, fails when a cached status is out of step with the
    expiry date: the stored work is still classified 'Copyrighted' in
    2041, its expiry date (2040-12-31) is known, and the answer is
    [None]. *)
Lemma C8_counterexample_stale_status :
  resolve_expiry Sample.db Sample.stored_copyrighted None
  = Ok (Some (mkdate 2040 12 31), Sample.stored_copyrighted)
  ∧ determine_status Sample.db Sample.dp Sample.stored_copyrighted None
      (Some (mkdate 2041 1 1)) = Ok "Copyrighted"
  ∧ get_days_until_expiry Sample.db Sample.dp Sample.stored_copyrighted None
      (Some (mkdate 2041 1 1)) = Ok (None, Sample.stored_copyrighted).
Proof. repeat split; reflexivity. Qed.

(** ** [update_work_status] *)

Section Idempotence.

#[local] Arguments calculate_expiry : simpl never.
#[local] Arguments determine_status : simpl never.

(** [calculate_expiry] for an explicit jurisdiction reads the work's
    authors and creation date, and the rule tables, and nothing else. *)
Lemma calculate_expiry_ext
    (db db' : Database) (work work' : Work.t) (j : Jurisdiction.t) :
  copyright_rules db' = copyright_rules db →
  Work.authors work' = Work.authors work →
  Work.creation_date work' = Work.creation_date work →
  calculate_expiry db' work' (Some j) = calculate_expiry db work (Some j).
Proof.
  intros Hr Ha Hc.
  unfold calculate_expiry, apply_special_rules, calculate_standard_expiry,
    get_copyright_rules_for_jurisdiction.
  rewrite Hr, Ha, Hc. reflexivity.
Qed.

(** A write, refused or not, touches neither the jurisdictions nor
    their rules, and no row but its own. *)
Lemma set_status_rules
    (db : Database) (wid jid : Z) (s : string) (e : option date) :
  copyright_rules (set_work_copyright_status_by_jurisdiction db wid jid s e).2
  = copyright_rules db.
Proof.
  unfold set_work_copyright_status_by_jurisdiction.
  by destruct (sqlite_errors db) as [|[] rest].
Qed.

Lemma set_status_jurisdictions
    (db : Database) (wid jid : Z) (s : string) (e : option date) :
  jurisdictions (set_work_copyright_status_by_jurisdiction db wid jid s e).2
  = jurisdictions db.
Proof.
  unfold set_work_copyright_status_by_jurisdiction.
  by destruct (sqlite_errors db) as [|[] rest].
Qed.

Lemma set_status_other_row
    (db : Database) (wid jid wid' jid' : Z) (s : string) (e : option date) :
  (wid, jid) ≠ (wid', jid') →
  get_work_copyright_status_by_jurisdiction
    (set_work_copyright_status_by_jurisdiction db wid jid s e).2 wid' jid'
  = get_work_copyright_status_by_jurisdiction db wid' jid'.
Proof.
  intros Hne.
  unfold get_work_copyright_status_by_jurisdiction,
    set_work_copyright_status_by_jurisdiction.
  destruct (sqlite_errors db) as [|[] rest]; cbn;
    [|reflexivity|]; by apply lookup_insert_ne.
Qed.

(** Its own row holds the new values, or, refused, the old ones. *)
Lemma set_status_row
    (db : Database) (wid jid : Z) (s : string) (e : option date) :
  get_work_copyright_status_by_jurisdiction
    (set_work_copyright_status_by_jurisdiction db wid jid s e).2 wid jid
  = Some (s, e)
  ∨ get_work_copyright_status_by_jurisdiction
      (set_work_copyright_status_by_jurisdiction db wid jid s e).2 wid jid
    = get_work_copyright_status_by_jurisdiction db wid jid.
Proof.
  unfold get_work_copyright_status_by_jurisdiction,
    set_work_copyright_status_by_jurisdiction.
  destruct (sqlite_errors db) as [|[] rest]; cbn;
    [left | by right | left]; apply lookup_insert_eq.
Qed.

Lemma set_status_row_written
    (db : Database) (wid jid : Z) (s : string) (e : option date) :
  no_sqlite_error db →
  get_work_copyright_status_by_jurisdiction
    (set_work_copyright_status_by_jurisdiction db wid jid s e).2 wid jid
  = Some (s, e).
Proof.
  unfold no_sqlite_error, get_work_copyright_status_by_jurisdiction,
    set_work_copyright_status_by_jurisdiction.
  destruct (sqlite_errors db) as [|[] rest]; cbn; intros Hno.
  - apply lookup_insert_eq.
  - by inversion Hno.
  - apply lookup_insert_eq.
Qed.

Lemma set_status_errors
    (db : Database) (wid jid : Z) (s : string) (e : option date) :
  no_sqlite_error db →
  no_sqlite_error
    (set_work_copyright_status_by_jurisdiction db wid jid s e).2.
Proof.
  unfold no_sqlite_error, set_work_copyright_status_by_jurisdiction.
  destruct (sqlite_errors db) as [|[] rest]; cbn; intros Hno.
  - constructor.
  - by inversion Hno.
  - by inversion Hno.
Qed.

Lemma multi_jurisdiction_step_inv
    (dp : DateProvider) (work : Work.t) (acc m : gmap string string)
    (db db' : Database) (j : Jurisdiction.t) :
  multi_jurisdiction_step dp work (acc, db) j = Ok (m, db') →
  copyright_rules db' = copyright_rules db
  ∧ jurisdictions db' = jurisdictions db
  ∧ (writes_status work j →
     ∃ e, calculate_expiry db work (Some j) = Ok e)
  ∧ match truthy_code j with
    | Some c => ∃ s, m = <[c := s]> acc
    | None => m = acc
    end.
Proof.
  unfold multi_jurisdiction_step, writes_status, truthy_code.
  destruct (Jurisdiction.code j) as [c|].
  2: { intros [= <- <-]. repeat split. intros [_ [x Hx]]. discriminate. }
  destruct (truthy_str c); cbn [negb].
  2: { intros [= <- <-]. repeat split. intros [_ [x Hx]]. discriminate. }
  destruct (determine_status db dp work (Some j) None) as [s|]; cbn;
    [|discriminate].
  destruct (Work.id work) as [wid|], (Jurisdiction.id j) as [jid|];
    cbn [truthy_int andb].
  2-4: intros [= <- <-]; repeat split; eauto;
       intros [Hw _]; rewrite ?andb_false_r in Hw; discriminate Hw.
  destruct (wid =? 0), (jid =? 0); cbn [negb andb].
  1-3: intros [= <- <-]; repeat split; eauto; intros [Hw _]; discriminate Hw.
  destruct (calculate_expiry db work (Some j)) as [e|]; cbn; [|discriminate].
  intros [= <- <-].
  split; [apply set_status_rules|]. split; [apply set_status_jurisdictions|].
  split; eauto.
Qed.

Lemma recorded_codes_cons (j : Jurisdiction.t) (l : list Jurisdiction.t) :
  recorded_codes (j :: l)
  = match truthy_code j with
    | Some c => c :: recorded_codes l
    | None => recorded_codes l
    end.
Proof. unfold recorded_codes. cbn. destruct (truthy_code j); reflexivity. Qed.

(** The first pass: what is known about a pass that did not raise. *)
Lemma multi_jurisdiction_loop_inv
    (dp : DateProvider) (work : Work.t) (l : list Jurisdiction.t) :
  ∀ (acc m : gmap string string) (db db' : Database),
    multi_jurisdiction_loop dp work l (acc, db) = Ok (m, db') →
    copyright_rules db' = copyright_rules db
    ∧ jurisdictions db' = jurisdictions db
    ∧ (∀ j, j ∈ l → writes_status work j →
       ∃ e, calculate_expiry db work (Some j) = Ok e)
    ∧ (∀ c, is_Some (m !! c) ↔ is_Some (acc !! c) ∨ c ∈ recorded_codes l).
Proof.
  induction l as [|j l IH]; intros acc m db db' H.
  - cbn in H. injection H as <- <-. repeat split; auto.
    + intros j Hj. inversion Hj.
    + intros [H | H]; [exact H | inversion H].
  - cbn [multi_jurisdiction_loop] in H.
    destruct (multi_jurisdiction_step dp work (acc, db) j)
      as [[acc1 db1]|] eqn:Hstep; [|discriminate H].
    cbn in H.
    apply multi_jurisdiction_step_inv in Hstep as (Hr1 & Hj1 & Hw1 & Hm1).
    apply IH in H as (Hr & Hj & Hw & Hm).
    split; [congruence|]. split; [congruence|]. split.
    + intros j' Hin Hwr. apply elem_of_cons in Hin as [-> | Hin]; [auto|].
      destruct (Hw j' Hin Hwr) as [e He]. exists e.
      rewrite <- He. symmetry. by apply calculate_expiry_ext.
    + intros c. rewrite Hm, recorded_codes_cons.
      destruct (truthy_code j) as [cj|].
      * destruct Hm1 as [s ->]. rewrite elem_of_cons.
        destruct (decide (cj = c)) as [-> | Hne].
        -- rewrite lookup_insert_eq. split; eauto.
        -- rewrite lookup_insert_ne by done. split.
           ++ intros [H | H]; auto.
           ++ intros [H | [H | H]]; auto. congruence.
      * subst acc1. reflexivity.
Qed.

Lemma determine_status_cached
    (db : Database) (dp : DateProvider) (work : Work.t)
    (j : Jurisdiction.t) (c s : string) (current_date : option date) :
  truthy_code j = Some c →
  Work.status_by_jurisdiction work !! c = Some s →
  determine_status db dp work (Some j) current_date = Ok s.
Proof.
  unfold truthy_code, determine_status, cached_jurisdiction_status.
  destruct (Jurisdiction.code j) as [c'|]; [|discriminate].
  destruct (truthy_str c'); [|discriminate].
  intros [= ->] ->. reflexivity.
Qed.

(** The second pass: every recorded code is answered from the map that
    the first pass left on the work. *)
Lemma multi_jurisdiction_loop_cached
    (dp : DateProvider) (work : Work.t) (l : list Jurisdiction.t) :
  ∀ (acc : gmap string string) (db : Database),
    (∀ c, c ∈ recorded_codes l →
          is_Some (Work.status_by_jurisdiction work !! c)) →
    (∀ j, j ∈ l → writes_status work j →
          ∃ e, calculate_expiry db work (Some j) = Ok e) →
    ∃ m db',
      multi_jurisdiction_loop dp work l (acc, db) = Ok (m, db')
      ∧ (∀ c, m !! c = if decide (c ∈ recorded_codes l)
                       then Work.status_by_jurisdiction work !! c
                       else acc !! c).
Proof.
  induction l as [|j l IH]; intros acc db Hdom Hw.
  - exists acc, db. split; [reflexivity|]. intros c.
    destruct (decide (c ∈ recorded_codes [])) as [H|]; [inversion H | done].
  - assert (∃ acc1 db1,
              multi_jurisdiction_step dp work (acc, db) j = Ok (acc1, db1)
              ∧ copyright_rules db1 = copyright_rules db
              ∧ acc1 = match truthy_code j with
                       | Some c =>
                           match Work.status_by_jurisdiction work !! c with
                           | Some s => <[c := s]> acc
                           | None => acc
                           end
                       | None => acc
                       end) as (acc1 & db1 & Hstep & Hr1 & Hacc1).
    { rewrite recorded_codes_cons in Hdom.
      pose proof (Hw j (list_elem_of_here _ _)) as Hwj.
      unfold writes_status in Hwj.
      destruct (truthy_code j) as [c|] eqn:Hc.
      - destruct (Hdom c (list_elem_of_here _ _)) as [s Hs]. rewrite Hs.
        pose proof (determine_status_cached db dp work j c s None Hc Hs)
          as Hds.
        unfold multi_jurisdiction_step. unfold truthy_code in Hc.
        destruct (Jurisdiction.code j) as [c'|]; [|discriminate].
        destruct (truthy_str c'); [|discriminate].
        injection Hc as ->. cbn [negb]. rewrite Hds. cbn.
        destruct (Work.id work) as [wid|], (Jurisdiction.id j) as [jid|];
          cbn [truthy_int andb] in *; eauto.
        destruct (wid =? 0), (jid =? 0); cbn [negb andb] in *; eauto.
        destruct Hwj as [e He]; [split; eauto|].
        rewrite He. cbn. do 2 eexists. split; [reflexivity|].
        split; [apply set_status_rules | reflexivity].
      - unfold multi_jurisdiction_step. unfold truthy_code in Hc.
        destruct (Jurisdiction.code j) as [c'|]; [|eauto].
        destruct (truthy_str c'); [discriminate|]. cbn [negb]. eauto. }
    cbn [multi_jurisdiction_loop]. rewrite Hstep. cbn [mbind res_bind].
    destruct (IH acc1 db1) as (m & db' & Hloop & Hm).
    + intros c Hc. apply Hdom. rewrite recorded_codes_cons.
      destruct (truthy_code j); [by right | done].
    + intros j' Hin Hwr.
      destruct (Hw j' (list_elem_of_further _ _ _ Hin) Hwr) as [e He].
      exists e. rewrite <- He. by apply calculate_expiry_ext.
    + exists m, db'. split; [exact Hloop|]. intros c. rewrite Hm.
      rewrite recorded_codes_cons. subst acc1.
      destruct (truthy_code j) as [cj|] eqn:Hcj; [|reflexivity].
      destruct (decide (c ∈ recorded_codes l)) as [Hin | Hnin].
      * rewrite decide_True by (by right). reflexivity.
      * destruct (decide (c = cj)) as [-> | Hne].
        -- rewrite decide_True by left.
           rewrite recorded_codes_cons, Hcj in Hdom.
           destruct (Hdom cj (list_elem_of_here _ _)) as [s Hs].
           rewrite Hs. apply lookup_insert_eq.
        -- rewrite decide_False
             by (intros H; apply elem_of_cons in H as [H | H]; done).
           destruct (Work.status_by_jurisdiction work !! cj);
             [by rewrite lookup_insert_ne | reflexivity].
Qed.

Lemma multi_jurisdiction_status_all
    (db : Database) (dp : DateProvider) (work : Work.t) :
  calculate_multi_jurisdiction_status db dp work (Some (jurisdictions db))
  = multi_jurisdiction_loop dp work (jurisdictions db) (∅, db).
Proof.
  unfold calculate_multi_jurisdiction_status, get_all_jurisdictions.
  destruct (jurisdictions db); reflexivity.
Qed.

(** [update_work_status] as a sequence of its four steps. *)
Lemma update_work_status_steps
    (db : Database) (dp : DateProvider) (work : Work.t) :
  update_work_status db dp work
  = (e ← expiry_after db work;
     s ← determine_status db dp (Work.set_copyright_expiry_date work e)
           None None;
     r ← multi_jurisdiction_loop dp
           (Work.set_status (Work.set_copyright_expiry_date work e) s)
           (jurisdictions db) (∅, db);
     Ok (Work.mk (Work.title work) (Work.id work) (Work.authors work)
           (Work.creation_date work) e
           (primary_after work (jurisdictions db)) s r.1,
         r.2)).
Proof.
  unfold update_work_status, expiry_after, primary_after,
    get_all_jurisdictions.
  destruct work as [t i a c e p s m]. cbn [Work.copyright_expiry_date].
  assert (∀ e' : option date,
            (s' ← determine_status db dp
                    (Work.mk t i a c e' p s m) None None;
             '(status_map, db0) ←
               calculate_multi_jurisdiction_status db dp
                 (Work.set_status (Work.mk t i a c e' p s m) s')
                 (Some (jurisdictions db));
             Ok (match p with
                 | Some _ => Work.mk t i a c e' p s' status_map
                 | None =>
                     if nonempty a then
                       match jurisdiction_of_nationality a (jurisdictions db) with
                       | Some j => Work.mk t i a c e' (Some j) s' status_map
                       | None => Work.mk t i a c e' p s' status_map
                       end
                     else Work.mk t i a c e' p s' status_map
                 end, db0))
            = (s' ← determine_status db dp (Work.mk t i a c e' p s m)
                      None None;
               r ← multi_jurisdiction_loop dp
                     (Work.set_status (Work.mk t i a c e' p s m) s')
                     (jurisdictions db) (∅, db);
               Ok (Work.mk t i a c e'
                     match p with
                     | Some p' => Some p'
                     | None =>
                         if nonempty a
                         then jurisdiction_of_nationality a (jurisdictions db)
                         else None
                     end s' r.1, r.2))) as Hrest.
  { intros e'.
    destruct (determine_status db dp (Work.mk t i a c e' p s m) None None)
      as [s'|]; [|reflexivity].
    cbn [mbind res_bind]. rewrite multi_jurisdiction_status_all.
    destruct (multi_jurisdiction_loop _ _ _ _) as [[sm db0]|];
      [|reflexivity].
    cbn [mbind res_bind fst snd]. destruct p as [p'|]; [reflexivity|].
    destruct (nonempty a); [|reflexivity].
    destruct (jurisdiction_of_nationality a (jurisdictions db));
      reflexivity. }
  destruct e as [d|].
  - cbn [mbind res_bind]. apply (Hrest (Some d)).
  - destruct (calculate_expiry db (Work.mk t i a c None p s m) None)
      as [e'|]; [|reflexivity].
    cbn [mbind res_bind]. apply (Hrest e').
Qed.

Lemma expiry_after_None_inv (db : Database) (work : Work.t) :
  expiry_after db work = Ok None →
  Work.creation_date work = None ∧ no_death_dates work.
Proof.
  unfold expiry_after.
  destruct (Work.copyright_expiry_date work); [discriminate|].
  apply calculate_expiry_None_inv.
Qed.

(** What the global classification of the first call looks like. *)
Lemma determine_status_global_inv
    (db : Database) (dp : DateProvider) (work : Work.t) (s : string) :
  determine_status db dp work None None = Ok s →
  (truthy_str s && negb (String.eqb s "Unknown") = true)
  ∨ (s = "Unknown" ∧ Work.creation_date work = None ∧ no_death_dates work).
Proof.
  unfold determine_status. cbn [is_some negb andb cached_jurisdiction_status].
  destruct (truthy_str (Work.status work)
            && negb (String.eqb (Work.status work) "Unknown")) eqn:Hg.
  - intros [= <-]. left. exact Hg.
  - destruct (calculate_expiry db work None) as [[e|]|] eqn:Hcalc;
      cbn [mbind res_bind]; [| |discriminate].
    + destruct (date_leb e _); intros [= <-]; left; reflexivity.
    + destruct (calculate_expiry_None_inv db work None Hcalc) as [Hc Hd].
      unfold historical_cutoff. rewrite Hc. intros [= <-]. right. auto.
Qed.

Lemma update_work_status_fixpoint
    (db db' : Database) (dp : DateProvider) (work work1 : Work.t)
    (db1 : Database) :
  update_work_status db dp work = Ok (work1, db1) →
  copyright_rules db' = copyright_rules db →
  jurisdictions db' = jurisdictions db →
  ∃ db2, update_work_status db' dp work1 = Ok (work1, db2).
Proof.
  rewrite !update_work_status_steps. intros H Hr Hj.
  destruct (expiry_after db work) as [e|] eqn:He; [|discriminate H].
  cbn [mbind res_bind] in H.
  destruct (determine_status db dp _ None None) as [s|] eqn:Hs;
    [|discriminate H].
  cbn [mbind res_bind] in H.
  destruct (multi_jurisdiction_loop dp _ (jurisdictions db) (∅, db))
    as [[m dbx]|] eqn:Hloop; [|discriminate H].
  cbn [mbind res_bind fst snd] in H. injection H as <- <-.
  set (w1 := Work.mk (Work.title work) (Work.id work) (Work.authors work)
               (Work.creation_date work) e
               (primary_after work (jurisdictions db)) s m).
  (* step 1 *)
  assert (expiry_after db' w1 = Ok e) as He1.
  { unfold expiry_after. cbn [Work.copyright_expiry_date w1].
    destruct e as [d|]; [reflexivity|].
    destruct (expiry_after_None_inv db work He) as [Hc Hd].
    by apply calculate_expiry_no_dates. }
  rewrite He1. cbn [mbind res_bind]. cbn [Work.set_copyright_expiry_date w1
    Work.title Work.id Work.authors Work.creation_date
    Work.copyright_expiry_date Work.primary_jurisdiction Work.status
    Work.status_by_jurisdiction]. fold w1.
  change (Work.set_copyright_expiry_date w1 e) with w1.
  (* step 2 *)
  assert (determine_status db' dp w1 None None = Ok s) as Hs1.
  { destruct (determine_status_global_inv db dp _ s Hs)
      as [Hg | (-> & Hc & Hd)].
    - unfold determine_status.
      cbn [is_some negb andb Work.status w1]. rewrite Hg. reflexivity.
    - unfold determine_status.
      cbn [is_some negb andb Work.status w1 cached_jurisdiction_status].
      replace (String.eqb "Unknown" "Unknown") with true by reflexivity.
      rewrite andb_false_r.
      rewrite (calculate_expiry_no_dates db' w1 None)
        by (destruct work; assumption).
      cbn [mbind res_bind]. unfold historical_cutoff.
      cbn [Work.creation_date w1].
      replace (Work.creation_date work) with (@None date)
        by (destruct work; symmetry; exact Hc).
      reflexivity. }
  rewrite Hs1. cbn [mbind res_bind].
  change (Work.set_status w1 s) with w1.
  (* step 3 *)
  apply multi_jurisdiction_loop_inv in Hloop as (_ & _ & Hw & Hdom).
  destruct (multi_jurisdiction_loop_cached dp w1 (jurisdictions db') ∅ db')
    as (m2 & db2 & Hloop2 & Hm2).
  { intros c Hc. cbn [Work.status_by_jurisdiction w1]. apply Hdom.
    right. by rewrite <- Hj. }
  { intros j Hin Hwr. rewrite Hj in Hin.
    destruct (Hw j Hin) as [x Hx].
    - destruct work; exact Hwr.
    - exists x. rewrite <- Hx. apply calculate_expiry_ext;
        [exact Hr | destruct work; reflexivity..]. }
  rewrite Hloop2. cbn [mbind res_bind fst snd].
  assert (m2 = m) as ->.
  { apply map_eq. intros c. rewrite Hm2. rewrite Hj.
    cbn [Work.status_by_jurisdiction w1].
    destruct (decide (c ∈ recorded_codes (jurisdictions db))) as [|Hnin];
      [reflexivity|].
    rewrite lookup_empty. symmetry. apply eq_None_not_Some.
    intros Hsome. apply Hdom in Hsome as [Hsome | Hsome]; [|done].
    rewrite lookup_empty in Hsome. by destruct Hsome. }
  (* step 4 *)
  assert (primary_after w1 (jurisdictions db')
          = primary_after work (jurisdictions db)) as ->.
  { unfold primary_after.
    cbn [Work.primary_jurisdiction Work.authors w1]. rewrite Hj.
    unfold primary_after.
    destruct (Work.primary_jurisdiction work); [reflexivity|].
    destruct (nonempty (Work.authors work)); [|reflexivity].
    destruct (jurisdiction_of_nationality _ _); reflexivity. }
  exists db2. reflexivity.
Qed.

Lemma update_work_status_db
    (db : Database) (dp : DateProvider) (work work1 : Work.t)
    (db1 : Database) :
  update_work_status db dp work = Ok (work1, db1) →
  copyright_rules db1 = copyright_rules db
  ∧ jurisdictions db1 = jurisdictions db.
Proof.
  rewrite update_work_status_steps. intros H.
  destruct (expiry_after db work) as [e|]; [|discriminate H].
  cbn [mbind res_bind] in H.
  destruct (determine_status db dp _ None None) as [s|]; [|discriminate H].
  cbn [mbind res_bind] in H.
  destruct (multi_jurisdiction_loop dp _ (jurisdictions db) (∅, db))
    as [[m dbx]|] eqn:Hloop; [|discriminate H].
  cbn [mbind res_bind fst snd] in H. injection H as _ <-.
  apply multi_jurisdiction_loop_inv in Hloop as (Hr & Hj & _). auto.
Qed.

(** An expiry date that is set is never recomputed, whatever the
    catalogue and the current date are. *)
Lemma update_work_status_keeps_expiry
    (db : Database) (dp : DateProvider) (work work' : Work.t)
    (db' : Database) (d : date) :
  Work.copyright_expiry_date work = Some d →
  update_work_status db dp work = Ok (work', db') →
  Work.copyright_expiry_date work' = Some d.
Proof.
  intros Hd. rewrite update_work_status_steps.
  unfold expiry_after. rewrite Hd. cbn [mbind res_bind]. intros H.
  destruct (determine_status db dp _ None None) as [s|]; [|discriminate H].
  cbn [mbind res_bind] in H.
  destruct (multi_jurisdiction_loop dp _ (jurisdictions db) (∅, db))
    as [[m dbx]|]; [|discriminate H].
  cbn [mbind res_bind fst snd] in H. injection H as <- _. reflexivity.
Qed.

End Idempotence.

(** C7: [update_work_status] is idempotent under an unchanged catalogue
    and current date.  A second call right after a first one returns,
    and leaves [status], [status_by_jurisdiction] and
    [copyright_expiry_date] as the first call set them; an expiry date
    that is set is not recomputed by any later call. *)
Theorem C7_update_work_status_idempotent
    (db : Database) (dp : DateProvider) (work work1 : Work.t)
    (db1 : Database) :
  update_work_status db dp work = Ok (work1, db1) →
  (∃ work2 db2,
     update_work_status db1 dp work1 = Ok (work2, db2)
     ∧ Work.status work2 = Work.status work1
     ∧ Work.status_by_jurisdiction work2 = Work.status_by_jurisdiction work1
     ∧ Work.copyright_expiry_date work2 = Work.copyright_expiry_date work1)
  ∧ (∀ d db' dp' work' db'',
       Work.copyright_expiry_date work1 = Some d →
       update_work_status db' dp' work1 = Ok (work', db'') →
       Work.copyright_expiry_date work' = Some d).
Proof.
  intros H. split.
  - destruct (update_work_status_db db dp work work1 db1 H) as [Hr Hj].
    destruct (update_work_status_fixpoint db db1 dp work work1 db1 H Hr Hj)
      as [db2 H2].
    exists work1, db2. auto.
  - intros d db' dp' work' db'' Hd H'.
    by apply (update_work_status_keeps_expiry db' dp' work1 work' db'' d).
Qed.

Lemma C7_witness_pd_book :
  update_work_status Sample.db Sample.dp Sample.pd_book
  = Ok (Sample.pd_book_updated, Sample.db)
  ∧ (∃ work2 db2,
       update_work_status Sample.db Sample.dp Sample.pd_book_updated
       = Ok (work2, db2)
       ∧ Work.status work2 = "Copyrighted"
       ∧ Work.status_by_jurisdiction work2
         = Work.status_by_jurisdiction Sample.pd_book_updated
       ∧ Work.copyright_expiry_date work2 = Some (mkdate 2040 12 31))
  ∧ (∀ d db' dp' work' db'',
       Work.copyright_expiry_date Sample.pd_book_updated = Some d →
       update_work_status db' dp' Sample.pd_book_updated = Ok (work', db'') →
       Work.copyright_expiry_date work' = Some d).
Proof.
  assert (update_work_status Sample.db Sample.dp Sample.pd_book
          = Ok (Sample.pd_book_updated, Sample.db)) as H
    by (vm_compute; reflexivity).
  split; [exact H|].
  exact (C7_update_work_status_idempotent Sample.db Sample.dp Sample.pd_book
           Sample.pd_book_updated Sample.db H).
Defined.

(** * Further properties *)

(** ** When an expiry date exists, and which rule gives it *)

(** X1: [calculate_expiry] returns [None] exactly when the work has no
    creation date and none of its authors has a known death date; no
    jurisdiction and no rule set changes that. *)
Theorem X1_expiry_unknown_iff
    (db : Database) (work : Work.t) (jurisdiction : option Jurisdiction.t) :
  calculate_expiry db work jurisdiction = Ok None
  ↔ Work.creation_date work = None ∧ no_death_dates work.
Proof.
  split.
  - apply calculate_expiry_None_inv.
  - intros [Hc Hd]. by apply calculate_expiry_no_dates.
Qed.

Lemma special_rules_not_applicable
    (db : Database) (work : Work.t) (j : Jurisdiction.t) :
  truthy_int (Jurisdiction.id j) = false
  ∨ (∀ jid, Jurisdiction.id j = Some jid →
            get_copyright_rules_for_jurisdiction db jid = [])
  ∨ (Jurisdiction.code j ≠ Some "US" ∧ Jurisdiction.code j ≠ Some "EU"
     ∧ Jurisdiction.code j ≠ Some "GB") →
  apply_special_rules db work j = Ok None.
Proof.
  unfold apply_special_rules.
  destruct (Jurisdiction.id j) as [jid|]; [|reflexivity].
  intros [Hid | [Hrules | (Hus & Heu & Hgb)]].
  - cbn in Hid. apply negb_false_iff in Hid. rewrite Hid. reflexivity.
  - rewrite (Hrules jid eq_refl). destruct (jid =? 0); reflexivity.
  - destruct (jid =? 0); [reflexivity|].
    destruct (negb _); [reflexivity|].
    destruct (ostr_eqb (Jurisdiction.code j) "US") eqn:H1;
      [by apply ostr_eqb_eq in H1|].
    destruct (ostr_eqb (Jurisdiction.code j) "EU") eqn:H2;
      [by apply ostr_eqb_eq in H2|].
    destruct (ostr_eqb (Jurisdiction.code j) "GB") eqn:H3;
      [by apply ostr_eqb_eq in H3|].
    reflexivity.
Qed.

(** X2: for a jurisdiction that is not flagged as having special rules,
    has no persisted id, has an empty rule set, or has a code other than
    US, EU and GB, [calculate_expiry] is the standard life-plus-term
    calculation. *)
Theorem X2_no_special_rules_is_standard
    (db : Database) (work : Work.t) (j : Jurisdiction.t) :
  Jurisdiction.has_special_rules j = false
  ∨ truthy_int (Jurisdiction.id j) = false
  ∨ (∀ jid, Jurisdiction.id j = Some jid →
            get_copyright_rules_for_jurisdiction db jid = [])
  ∨ (Jurisdiction.code j ≠ Some "US" ∧ Jurisdiction.code j ≠ Some "EU"
     ∧ Jurisdiction.code j ≠ Some "GB") →
  calculate_expiry db work (Some j) = calculate_standard_expiry work (Some j).
Proof.
  intros [Hflag | Hrest]; unfold calculate_expiry.
  - rewrite Hflag. reflexivity.
  - rewrite (special_rules_not_applicable db work j Hrest).
    destruct (Jurisdiction.has_special_rules j); reflexivity.
Qed.

Lemma X2_witness_japan :
  (Jurisdiction.code Sample.JP ≠ Some "US" ∧ Jurisdiction.code Sample.JP ≠ Some "EU"
   ∧ Jurisdiction.code Sample.JP ≠ Some "GB")
  ∧ calculate_expiry Sample.db Sample.dracula (Some Sample.JP)
    = calculate_standard_expiry Sample.dracula (Some Sample.JP).
Proof.
  assert (Jurisdiction.code Sample.JP ≠ Some "US"
          ∧ Jurisdiction.code Sample.JP ≠ Some "EU"
          ∧ Jurisdiction.code Sample.JP ≠ Some "GB") as H
    by (repeat split; discriminate).
  split; [exact H|].
  apply (X2_no_special_rules_is_standard Sample.db Sample.dracula Sample.JP).
  right. right. right. exact H.
Defined.

Lemma first_rule_expiry_find
    (rules : list CopyrightRule.t) (tag : string) (base_year : Z) :
  first_rule_expiry rules tag base_year
  = (λ rule, end_of_year (base_year + CopyrightRule.term_years rule))
      <$> first_rule rules tag.
Proof.
  unfold first_rule_expiry, first_rule.
  induction rules as [|r rules IH]; cbn; [reflexivity|].
  destruct (String.eqb (CopyrightRule.rule_type r) tag); [reflexivity|].
  exact IH.
Qed.

Lemma first_rule_nonempty
    (rules : list CopyrightRule.t) (tag : string) (r : CopyrightRule.t) :
  first_rule rules tag = Some r → negb (nonempty rules) = false.
Proof. destruct rules; [discriminate | reflexivity]. Qed.

Lemma calculate_expiry_special
    (db : Database) (work : Work.t) (j : Jurisdiction.t) (y : Z) :
  Jurisdiction.has_special_rules j = true →
  apply_special_rules db work j = end_of_year y →
  calculate_expiry db work (Some j) = end_of_year y.
Proof.
  intros Hflag Hrule. unfold calculate_expiry. rewrite Hflag, Hrule.
  destruct (end_of_year_shape y) as [-> | [e ->]]; reflexivity.
Qed.

(** X3: under a US jurisdiction with special rules, a work created in
    1923..1977 expires on December 31 of the creation year plus the term
    of the first [published_1923_to_1977] rule, whoever its authors are. *)
Theorem X3_us_published_1923_to_1977
    (db : Database) (work : Work.t) (j : Jurisdiction.t)
    (jid : Z) (c : date) (rule : CopyrightRule.t) :
  Jurisdiction.id j = Some jid → jid ≠ 0 →
  Jurisdiction.has_special_rules j = true →
  Jurisdiction.code j = Some "US" →
  Work.creation_date work = Some c → 1923 ≤ year c ≤ 1977 →
  first_rule (get_copyright_rules_for_jurisdiction db jid)
    "published_1923_to_1977" = Some rule →
  calculate_expiry db work (Some j)
  = (d ← new_date (year c + CopyrightRule.term_years rule) 12 31; Ok (Some d)).
Proof.
  intros Hid Hnz Hflag Hcode Hc [Hlo Hhi] Hrule.
  apply (calculate_expiry_special db work j _ Hflag).
  unfold apply_special_rules. rewrite Hid, Hcode, Hc.
  apply Z.eqb_neq in Hnz. rewrite Hnz.
  rewrite (first_rule_nonempty _ _ _ Hrule).
  replace (ostr_eqb (Some "US") "US") with true by reflexivity.
  replace (year c <? 1923) with false by (symmetry; apply Z.ltb_ge; lia).
  replace ((1923 <=? year c) && (year c <=? 1977)) with true
    by (symmetry; apply andb_true_intro; split; apply Z.leb_le; lia).
  rewrite first_rule_expiry_find, Hrule. reflexivity.
Qed.

Lemma X3_witness_work_1950 :
  first_rule (get_copyright_rules_for_jurisdiction Sample.db 1)
    "published_1923_to_1977" = Some (CopyrightRule.mk "published_1923_to_1977" 95)
  ∧ calculate_expiry Sample.db Sample2.work_1950 (Some Sample.US)
    = Ok (Some (mkdate 2045 12 31)).
Proof.
  split; [reflexivity|].
  apply (X3_us_published_1923_to_1977 Sample.db Sample2.work_1950 Sample.US 1
           (mkdate 1950 1 1) (CopyrightRule.mk "published_1923_to_1977" 95));
    try reflexivity; cbn; lia.
Defined.

(** X4: under a US jurisdiction with special rules, a work created after
    1977 whose only author has a name ending in " Inc." expires on
    December 31 of the creation year plus the term of the first
    [corporate_works] rule. *)
Theorem X4_us_corporate_work
    (db : Database) (work : Work.t) (j : Jurisdiction.t)
    (jid : Z) (a : Author.t) (c : date) (rule : CopyrightRule.t) :
  Jurisdiction.id j = Some jid → jid ≠ 0 →
  Jurisdiction.has_special_rules j = true →
  Jurisdiction.code j = Some "US" →
  Work.authors work = [a] → endswith (Author.name a) " Inc." = true →
  Work.creation_date work = Some c → 1977 < year c →
  first_rule (get_copyright_rules_for_jurisdiction db jid)
    "corporate_works" = Some rule →
  calculate_expiry db work (Some j)
  = (d ← new_date (year c + CopyrightRule.term_years rule) 12 31; Ok (Some d)).
Proof.
  intros Hid Hnz Hflag Hcode Ha Hinc Hc Hy Hrule.
  apply (calculate_expiry_special db work j _ Hflag).
  unfold apply_special_rules. rewrite Hid, Hcode, Hc, Ha, Hinc.
  apply Z.eqb_neq in Hnz. rewrite Hnz.
  rewrite (first_rule_nonempty _ _ _ Hrule).
  replace (ostr_eqb (Some "US") "US") with true by reflexivity.
  replace (year c <? 1923) with false by (symmetry; apply Z.ltb_ge; lia).
  replace (year c <=? 1977) with false by (symmetry; apply Z.leb_gt; lia).
  rewrite andb_false_r. cbn [negb or_else].
  change (for_return ?l _)
    with (first_rule_expiry l "corporate_works" (year c)).
  rewrite first_rule_expiry_find, Hrule. reflexivity.
Qed.

Lemma X4_witness_acme :
  endswith (Author.name Sample2.acme) " Inc." = true
  ∧ calculate_expiry Sample.db Sample2.acme_manual (Some Sample.US)
    = Ok (Some (mkdate 2085 12 31)).
Proof.
  split; [reflexivity|].
  apply (X4_us_corporate_work Sample.db Sample2.acme_manual Sample.US 1
           Sample2.acme (mkdate 1990 6 1) (CopyrightRule.mk "corporate_works" 95));
    try reflexivity; cbn; lia.
Defined.

(** X5: under an EU jurisdiction with special rules, a work without
    authors that has a creation date expires on December 31 of the
    creation year plus the term of the first [anonymous_works] rule. *)
Theorem X5_eu_anonymous_work
    (db : Database) (work : Work.t) (j : Jurisdiction.t)
    (jid : Z) (c : date) (rule : CopyrightRule.t) :
  Jurisdiction.id j = Some jid → jid ≠ 0 →
  Jurisdiction.has_special_rules j = true →
  Jurisdiction.code j = Some "EU" →
  Work.authors work = [] →
  Work.creation_date work = Some c →
  first_rule (get_copyright_rules_for_jurisdiction db jid)
    "anonymous_works" = Some rule →
  calculate_expiry db work (Some j)
  = (d ← new_date (year c + CopyrightRule.term_years rule) 12 31; Ok (Some d)).
Proof.
  intros Hid Hnz Hflag Hcode Ha Hc Hrule.
  apply (calculate_expiry_special db work j _ Hflag).
  unfold apply_special_rules. rewrite Hid, Hcode, Hc, Ha.
  apply Z.eqb_neq in Hnz. rewrite Hnz.
  rewrite (first_rule_nonempty _ _ _ Hrule).
  replace (ostr_eqb (Some "EU") "US") with false by reflexivity.
  replace (ostr_eqb (Some "EU") "EU") with true by reflexivity.
  cbn [nonempty negb]. rewrite first_rule_expiry_find, Hrule. reflexivity.
Qed.

Lemma X5_witness_anonymous_1950 :
  first_rule (get_copyright_rules_for_jurisdiction Sample.db 2)
    "anonymous_works" = Some (CopyrightRule.mk "anonymous_works" 70)
  ∧ calculate_expiry Sample.db Sample.anonymous_1950 (Some Sample.EU)
    = Ok (Some (mkdate 2020 12 31)).
Proof.
  split; [reflexivity|].
  apply (X5_eu_anonymous_work Sample.db Sample.anonymous_1950 Sample.EU 2
           (mkdate 1950 1 1) (CopyrightRule.mk "anonymous_works" 70));
    try reflexivity; lia.
Defined.

Lemma all_death_dates_scan (work : Work.t) :
  Work.authors work ≠ [] →
  (∀ a, a ∈ Work.authors work → is_Some (Author.death_date a)) →
  ∃ l y, scan_death_dates (Work.authors work) = (Some l, true)
         ∧ year l = y ∧ max_death_year work = Some y.
Proof.
  intros Hne Hall.
  assert (has_known_death_date work) as Hknown.
  { destruct (Work.authors work) as [|a rest] eqn:Ha; [done|].
    exists a. split; [rewrite Ha; left | apply Hall; left]. }
  destruct (max_death_year_known work Hknown) as (l & y & Hscan & Hy & Hmax).
  exists l, y. split; [|auto].
  pose proof (fold_death_date_step_all (Work.authors work) None true) as H2.
  fold (scan_death_dates (Work.authors work)) in H2.
  destruct (scan_death_dates (Work.authors work)) as [o b].
  cbn in Hscan, H2. subst o. f_equal. rewrite H2. cbn [andb].
  apply forallb_forall. intros a Ha. apply list_elem_of_In in Ha.
  destruct (Hall a Ha) as [d ->]. reflexivity.
Qed.

(** X6: under an EU jurisdiction with special rules, a work with more
    than one author, all with known death dates, expires on December 31
    of the latest death year plus the term of the first
    [collaborative_works] rule (the rule's term, not the jurisdiction's). *)
Theorem X6_eu_collaborative_work
    (db : Database) (work : Work.t) (j : Jurisdiction.t)
    (jid : Z) (rule : CopyrightRule.t) :
  Jurisdiction.id j = Some jid → jid ≠ 0 →
  Jurisdiction.has_special_rules j = true →
  Jurisdiction.code j = Some "EU" →
  (1 < length (Work.authors work))%nat →
  (∀ a, a ∈ Work.authors work → is_Some (Author.death_date a)) →
  first_rule (get_copyright_rules_for_jurisdiction db jid)
    "collaborative_works" = Some rule →
  ∃ y, max_death_year work = Some y
       ∧ calculate_expiry db work (Some j)
         = (d ← new_date (y + CopyrightRule.term_years rule) 12 31;
            Ok (Some d)).
Proof.
  intros Hid Hnz Hflag Hcode Hlen Hall Hrule.
  destruct (all_death_dates_scan work) as (l & y & Hscan & Hy & Hmax);
    [intros H; rewrite H in Hlen; cbn in Hlen; lia | exact Hall |].
  exists y. split; [exact Hmax|].
  apply (calculate_expiry_special db work j _ Hflag).
  unfold apply_special_rules. rewrite Hid, Hcode, Hscan.
  apply Z.eqb_neq in Hnz. rewrite Hnz.
  rewrite (first_rule_nonempty _ _ _ Hrule).
  replace (ostr_eqb (Some "EU") "US") with false by reflexivity.
  replace (ostr_eqb (Some "EU") "EU") with true by reflexivity.
  apply Nat.ltb_lt in Hlen. rewrite Hlen.
  destruct (Work.authors work) as [|a rest]; [discriminate Hlen|].
  cbn [nonempty negb].
  replace (match Work.creation_date work with
           | Some _ => None
           | None => None
           end) with (@None (res (option date)))
    by (destruct (Work.creation_date work); reflexivity).
  cbn [or_else].
  change (for_return ?rs _)
    with (first_rule_expiry rs "collaborative_works" (year l)).
  rewrite first_rule_expiry_find, Hrule, Hy. reflexivity.
Qed.

Lemma X6_witness_duet :
  ((1 < length (Work.authors Sample2.duet))%nat
   ∧ ∀ a, a ∈ Work.authors Sample2.duet → is_Some (Author.death_date a))
  ∧ ∃ y, max_death_year Sample2.duet = Some y
         ∧ calculate_expiry Sample.db Sample2.duet (Some Sample.EU)
           = (d ← new_date (y + 70) 12 31; Ok (Some d)).
Proof.
  assert (∀ a, a ∈ Work.authors Sample2.duet → is_Some (Author.death_date a))
    as Hall.
  { intros a Ha. cbn in Ha.
    apply elem_of_cons in Ha as [-> | Ha]; [eexists; reflexivity|].
    apply elem_of_cons in Ha as [-> | Ha]; [eexists; reflexivity|].
    inversion Ha. }
  split; [split; [cbn; lia | exact Hall]|].
  apply (X6_eu_collaborative_work Sample.db Sample2.duet Sample.EU 2
           (CopyrightRule.mk "collaborative_works" 70));
    try reflexivity; [lia | cbn; lia | exact Hall].
Defined.

(** X7: under a GB jurisdiction with special rules, a work with a
    creation date and an author named exactly "Crown" expires on
    December 31 of the creation year plus the term of the first
    [crown_copyright] rule. *)
Theorem X7_gb_crown_copyright
    (db : Database) (work : Work.t) (j : Jurisdiction.t)
    (jid : Z) (c : date) (rule : CopyrightRule.t) :
  Jurisdiction.id j = Some jid → jid ≠ 0 →
  Jurisdiction.has_special_rules j = true →
  Jurisdiction.code j = Some "GB" →
  (∃ a, a ∈ Work.authors work ∧ Author.name a = "Crown") →
  Work.creation_date work = Some c →
  first_rule (get_copyright_rules_for_jurisdiction db jid)
    "crown_copyright" = Some rule →
  calculate_expiry db work (Some j)
  = (d ← new_date (year c + CopyrightRule.term_years rule) 12 31; Ok (Some d)).
Proof.
  intros Hid Hnz Hflag Hcode (a & Ha & Hname) Hc Hrule.
  apply (calculate_expiry_special db work j _ Hflag).
  unfold apply_special_rules. rewrite Hid, Hcode, Hc.
  apply Z.eqb_neq in Hnz. rewrite Hnz.
  rewrite (first_rule_nonempty _ _ _ Hrule).
  replace (ostr_eqb (Some "GB") "US") with false by reflexivity.
  replace (ostr_eqb (Some "GB") "EU") with false by reflexivity.
  replace (ostr_eqb (Some "GB") "GB") with true by reflexivity.
  assert (nonempty (Work.authors work) = true) as ->
    by (destruct (Work.authors work); [inversion Ha | reflexivity]).
  assert (existsb (λ author, String.eqb (Author.name author) "Crown")
            (Work.authors work) = true) as ->.
  { apply existsb_exists. exists a. split; [by apply list_elem_of_In|].
    rewrite Hname. reflexivity. }
  cbn [andb]. rewrite first_rule_expiry_find, Hrule. reflexivity.
Qed.

Lemma X7_witness_gazette :
  (∃ a, a ∈ Work.authors Sample2.gazette ∧ Author.name a = "Crown")
  ∧ calculate_expiry Sample.db Sample2.gazette (Some Sample.GB)
    = Ok (Some (mkdate 2010 12 31)).
Proof.
  assert (∃ a, a ∈ Work.authors Sample2.gazette ∧ Author.name a = "Crown")
    as H by (exists Sample2.crown; split; [left | reflexivity]).
  split; [exact H|].
  apply (X7_gb_crown_copyright Sample.db Sample2.gazette Sample.GB 4
           (mkdate 1960 1 1) (CopyrightRule.mk "crown_copyright" 50));
    try reflexivity; [lia | exact H].
Defined.

(** ** The order of the authors *)

Section AuthorOrder.

Lemma running_max_spec (ys : list Z) (m : Z) :
  running_max None ys = Some m ↔ m ∈ ys ∧ ∀ z, z ∈ ys → z ≤ m.
Proof.
  destruct ys as [|y ys]; cbn.
  - split; [discriminate | intros [H _]; inversion H].
  - destruct (foldr_max_ge y ys) as [H1 H2].
    pose proof (foldr_max_in y ys) as Hin. split.
    + intros [= <-]. split; [exact Hin|]. intros z Hz.
      apply elem_of_cons in Hz as [-> | Hz]; auto.
    + intros [Hm Hub]. f_equal.
      specialize (Hub _ Hin).
      apply elem_of_cons in Hm as [-> | Hm]; [lia|].
      specialize (H2 _ Hm). lia.
Qed.

Lemma running_max_Permutation (ys ys' : list Z) :
  ys ≡ₚ ys' → running_max None ys = running_max None ys'.
Proof.
  intros Hp.
  destruct (running_max None ys) as [m|] eqn:H.
  - symmetry. apply running_max_spec. apply running_max_spec in H as [Hm Hub].
    split; [by rewrite <- Hp|]. intros z Hz. apply Hub. by rewrite Hp.
  - destruct ys as [|y ys]; [|discriminate H].
    apply Permutation_nil_l in Hp as <-. reflexivity.
Qed.

Lemma scan_death_dates_Permutation (l l' : list Author.t) :
  l ≡ₚ l' →
  year <$> (scan_death_dates l).1 = year <$> (scan_death_dates l').1
  ∧ (scan_death_dates l).2 = (scan_death_dates l').2.
Proof.
  intros Hp. split.
  - rewrite !scan_death_dates_year. apply running_max_Permutation.
    unfold known_death_years. by rewrite Hp.
  - unfold scan_death_dates. rewrite !fold_death_date_step_all. cbn [andb].
    apply eq_true_iff_eq. rewrite !forallb_forall.
    split; intros H a Ha; apply H; apply list_elem_of_In;
      apply list_elem_of_In in Ha; [by rewrite Hp | by rewrite <- Hp].
Qed.

Lemma existsb_Permutation {A} (f : A → bool) (l l' : list A) :
  l ≡ₚ l' → existsb f l = existsb f l'.
Proof.
  intros Hp. apply eq_true_iff_eq. rewrite !existsb_exists.
  split; intros (x & Hx & Hf); exists x; (split; [|exact Hf]);
    apply list_elem_of_In; apply list_elem_of_In in Hx;
    [by rewrite <- Hp | by rewrite Hp].
Qed.

Lemma calculate_expiry_authors_Permutation
    (db : Database) (work : Work.t) (authors' : list Author.t)
    (jurisdiction : option Jurisdiction.t) :
  Work.authors work ≡ₚ authors' →
  calculate_expiry db (with_authors work authors') jurisdiction
  = calculate_expiry db work jurisdiction.
Proof.
  intros Hp.
  destruct (scan_death_dates_Permutation _ _ Hp) as [Hyear Hall].
  pose proof (existsb_Permutation
                (λ author, String.eqb (Author.name author) "Crown") _ _ Hp)
    as Hcrown.
  pose proof (Permutation_length Hp) as Hlen.
  unfold calculate_expiry, apply_special_rules, calculate_standard_expiry,
    with_authors.
  cbn [Work.authors Work.creation_date Work.primary_jurisdiction].
  rewrite <- Hcrown, <- Hlen.
  destruct (scan_death_dates (Work.authors work)) as [o b] eqn:Hs.
  destruct (scan_death_dates authors') as [o' b'] eqn:Hs'.
  cbn in Hyear, Hall. subst b'.
  assert (nonempty authors' = nonempty (Work.authors work)) as ->.
  { destruct authors', (Work.authors work); try reflexivity; discriminate Hlen. }
  destruct (Work.authors work) as [|a1 [|a2 l2]] eqn:Ha;
    destruct authors' as [|b1 [|b2 l2']]; try discriminate Hlen.
  - cbn in Hs, Hs'. injection Hs as <- <-. injection Hs' as <-.
    reflexivity.
  - apply Permutation_singleton_inj in Hp as <-.
    rewrite Hs in Hs'. injection Hs' as <-. reflexivity.
  - destruct o as [d|], o' as [d'|]; cbn in Hyear; try discriminate Hyear;
      [|reflexivity].
    injection Hyear as Hy. rewrite <- Hy. reflexivity.
Qed.

End AuthorOrder.

(** X8: the order in which a work lists its authors does not matter:
    [calculate_expiry] gives the same result for any permutation of the
    authors, in every jurisdiction. *)
Theorem X8_author_order_irrelevant
    (db : Database) (work : Work.t) (authors' : list Author.t)
    (jurisdiction : option Jurisdiction.t) :
  Work.authors work ≡ₚ authors' →
  calculate_expiry db (with_authors work authors') jurisdiction
  = calculate_expiry db work jurisdiction.
Proof. apply calculate_expiry_authors_Permutation. Qed.

Lemma X8_witness_duet :
  Work.authors Sample2.duet ≡ₚ [Sample2.author_c; Sample.author_a]
  ∧ calculate_expiry Sample.db
      (with_authors Sample2.duet [Sample2.author_c; Sample.author_a])
      (Some Sample.EU)
    = calculate_expiry Sample.db Sample2.duet (Some Sample.EU).
Proof.
  assert (Work.authors Sample2.duet ≡ₚ [Sample2.author_c; Sample.author_a])
    as Hp by apply perm_swap.
  split; [exact Hp|].
  exact (X8_author_order_irrelevant Sample.db Sample2.duet
           [Sample2.author_c; Sample.author_a] (Some Sample.EU) Hp).
Defined.

(** ** [determine_status] over time *)

(** X9: as the current date advances, the status of a work in a
    jurisdiction either stays what it was or goes from 'Copyrighted' to
    'Public Domain'; no other change is possible. *)
Theorem X9_status_changes_only_to_public_domain
    (db : Database) (dp : DateProvider) (work : Work.t)
    (jurisdiction : option Jurisdiction.t) (d1 d2 : date) (s1 : string) :
  date_geb d2 d1 = true →
  determine_status db dp work jurisdiction (Some d1) = Ok s1 →
  ∃ s2, determine_status db dp work jurisdiction (Some d2) = Ok s2
        ∧ (s2 = s1 ∨ (s1 = "Copyrighted" ∧ s2 = "Public Domain")).
Proof.
  intros Hge. rewrite date_geb_leb in Hge. unfold determine_status.
  destruct (_ && _ && _); [eauto|].
  destruct (cached_jurisdiction_status work jurisdiction); [eauto|].
  destruct (calculate_expiry db work jurisdiction) as [[e|]|]; cbn;
    [| |discriminate].
  - destruct (date_leb e d1) eqn:H1; intros [= <-].
    + rewrite (date_leb_trans e d1 d2 H1 Hge). eauto.
    + destruct (date_leb e d2); eauto.
  - eauto.
Qed.

Lemma X9_witness_dracula :
  (date_geb (mkdate 1990 1 1) (mkdate 1950 6 1) = true
   ∧ determine_status Sample.db Sample.dp Sample.dracula (Some Sample.GB)
       (Some (mkdate 1950 6 1)) = Ok "Copyrighted")
  ∧ ∃ s2, determine_status Sample.db Sample.dp Sample.dracula (Some Sample.GB)
            (Some (mkdate 1990 1 1)) = Ok s2
          ∧ (s2 = "Copyrighted"
             ∨ ("Copyrighted" = "Copyrighted" ∧ s2 = "Public Domain")).
Proof.
  split; [split; reflexivity|].
  apply (X9_status_changes_only_to_public_domain Sample.db Sample.dp
           Sample.dracula (Some Sample.GB) (mkdate 1950 6 1) (mkdate 1990 1 1)
           "Copyrighted"); reflexivity.
Defined.

(** X10: under a US jurisdiction with special rules and a
    [published_before_1923] rule, a work created before 1923 that has no
    cached status for the jurisdiction is 'Public Domain' at every
    current date from January 1, 1923 on. *)
Theorem X10_us_pre_1923_is_public_domain
    (db : Database) (dp : DateProvider) (work : Work.t) (j : Jurisdiction.t)
    (c current_date : date) :
  Work.creation_date work = Some c → year c < 1923 →
  Jurisdiction.code j = Some "US" →
  Jurisdiction.has_special_rules j = true →
  has_rule db j "published_before_1923" →
  cached_jurisdiction_status work (Some j) = None →
  date_geb current_date (mkdate 1923 1 1) = true →
  determine_status db dp work (Some j) (Some current_date)
  = Ok "Public Domain".
Proof.
  intros Hc Hy Hcode Hflag Hrule Hcache Hge.
  rewrite date_geb_leb in Hge.
  unfold determine_status. cbn [is_some negb andb]. rewrite Hcache.
  unfold calculate_expiry. rewrite Hflag.
  rewrite (special_rules_before_1923 db work j c Hc Hy Hcode Hrule).
  cbn [mbind res_bind]. rewrite Hge. reflexivity.
Qed.

Lemma X10_witness_pd_book :
  has_rule Sample.db Sample.US "published_before_1923"
  ∧ determine_status Sample.db Sample.dp Sample.pd_book (Some Sample.US)
      (Some (mkdate 1930 5 5)) = Ok "Public Domain".
Proof.
  assert (has_rule Sample.db Sample.US "published_before_1923") as Hrule.
  { exists 1, (CopyrightRule.mk "published_before_1923" 0).
    split; [reflexivity|]. split; [lia|]. split; [left | reflexivity]. }
  split; [exact Hrule|].
  apply (X10_us_pre_1923_is_public_domain Sample.db Sample.dp Sample.pd_book
           Sample.US (mkdate 1920 1 1) (mkdate 1930 5 5));
    try reflexivity; try exact Hrule; cbn; lia.
Defined.

(** ** [calculate_multi_jurisdiction_status] *)

Section MultiJurisdiction.

#[local] Arguments calculate_expiry : simpl never.
#[local] Arguments determine_status : simpl never.

(** The scheduler reads the store only through the rule tables. *)
Lemma calculate_expiry_ext_db
    (db db' : Database) (work : Work.t) (jurisdiction : option Jurisdiction.t) :
  copyright_rules db' = copyright_rules db →
  calculate_expiry db' work jurisdiction = calculate_expiry db work jurisdiction.
Proof.
  intros Hr.
  unfold calculate_expiry, apply_special_rules,
    get_copyright_rules_for_jurisdiction.
  rewrite Hr. reflexivity.
Qed.

Lemma determine_status_ext_db
    (db db' : Database) (dp : DateProvider) (work : Work.t)
    (jurisdiction : option Jurisdiction.t) (current_date : option date) :
  copyright_rules db' = copyright_rules db →
  determine_status db' dp work jurisdiction current_date
  = determine_status db dp work jurisdiction current_date.
Proof.
  intros Hr. unfold determine_status.
  rewrite (calculate_expiry_ext_db db db' work jurisdiction Hr). reflexivity.
Qed.

Lemma multi_jurisdiction_step_spec
    (dp : DateProvider) (work : Work.t) (acc m : gmap string string)
    (db db' : Database) (j : Jurisdiction.t) :
  multi_jurisdiction_step dp work (acc, db) j = Ok (m, db') →
  (truthy_code j = None ∧ m = acc ∧ db' = db)
  ∨ ∃ c s,
      truthy_code j = Some c
      ∧ determine_status db dp work (Some j) None = Ok s
      ∧ m = <[c := s]> acc
      ∧ ((truthy_int (Work.id work) && truthy_int (Jurisdiction.id j) = false
          ∧ db' = db)
         ∨ ∃ wid jid e,
             Work.id work = Some wid ∧ wid ≠ 0
             ∧ Jurisdiction.id j = Some jid ∧ jid ≠ 0
             ∧ calculate_expiry db work (Some j) = Ok e
             ∧ db' = (set_work_copyright_status_by_jurisdiction db wid jid
                        s e).2).
Proof.
  unfold multi_jurisdiction_step, truthy_code.
  destruct (Jurisdiction.code j) as [c|]; [|intros [= <- <-]; by left].
  destruct (truthy_str c); cbn [negb]; [|intros [= <- <-]; by left].
  destruct (determine_status db dp work (Some j) None) as [s|]; cbn;
    [|discriminate].
  intros H. right. exists c, s. split; [reflexivity|]. split; [reflexivity|].
  destruct (Work.id work) as [wid|], (Jurisdiction.id j) as [jid|];
    cbn [truthy_int andb] in *.
  2-4: injection H as <- <-; split; [reflexivity|]; left;
       rewrite ?andb_false_r; done.
  destruct (Z.eqb_spec wid 0), (Z.eqb_spec jid 0); cbn [negb andb] in *.
  1-3: injection H as <- <-; split; [reflexivity|]; left; done.
  destruct (calculate_expiry db work (Some j)) as [e|]; cbn in H;
    [|discriminate H].
  injection H as <- <-. split; [reflexivity|]. right.
  exists wid, jid, e. done.
Qed.

Lemma step_spec_rules
    (dp : DateProvider) (work : Work.t) (acc m : gmap string string)
    (db db' : Database) (j : Jurisdiction.t) :
  multi_jurisdiction_step dp work (acc, db) j = Ok (m, db') →
  copyright_rules db' = copyright_rules db.
Proof.
  intros H. by apply multi_jurisdiction_step_inv in H as (Hr & _).
Qed.

(** Where the entries of the returned map come from. *)
Lemma multi_jurisdiction_loop_values
    (dp : DateProvider) (work : Work.t) (l : list Jurisdiction.t) :
  ∀ (acc m : gmap string string) (db db' : Database),
    multi_jurisdiction_loop dp work l (acc, db) = Ok (m, db') →
    ∀ c s, m !! c = Some s →
      acc !! c = Some s
      ∨ ∃ j, j ∈ l ∧ truthy_code j = Some c
             ∧ determine_status db dp work (Some j) None = Ok s.
Proof.
  induction l as [|j l IH]; intros acc m db db' H c s Hc.
  - cbn in H. injection H as <- <-. by left.
  - cbn [multi_jurisdiction_loop] in H.
    destruct (multi_jurisdiction_step dp work (acc, db) j)
      as [[acc1 db1]|] eqn:Hstep; [|discriminate H].
    cbn [mbind res_bind] in H.
    pose proof (step_spec_rules _ _ _ _ _ _ _ Hstep) as Hr.
    destruct (IH _ _ _ _ H c s Hc) as [Hacc | (j' & Hin & Hcode & Hds)].
    + apply multi_jurisdiction_step_spec in Hstep
        as [(_ & -> & _) | (cj & sj & Hcj & Hsj & -> & _)]; [by left|].
      destruct (decide (cj = c)) as [-> | Hne].
      * rewrite lookup_insert_eq in Hacc. injection Hacc as ->.
        right. exists j. split; [left | done].
      * rewrite lookup_insert_ne in Hacc by done. by left.
    + right. exists j'. split; [by right|]. split; [exact Hcode|].
      rewrite <- Hds. symmetry. by apply determine_status_ext_db.
Qed.

(** Which rows of the store a pass can touch. *)
Lemma multi_jurisdiction_loop_frame
    (dp : DateProvider) (work : Work.t) (l : list Jurisdiction.t) :
  ∀ (acc m : gmap string string) (db db' : Database),
    multi_jurisdiction_loop dp work l (acc, db) = Ok (m, db') →
    (truthy_int (Work.id work) = false → db' = db)
    ∧ ∀ wid jid, Work.id work ≠ Some wid →
        get_work_copyright_status_by_jurisdiction db' wid jid
        = get_work_copyright_status_by_jurisdiction db wid jid.
Proof.
  induction l as [|j l IH]; intros acc m db db' H.
  - cbn in H. injection H as <- <-. done.
  - cbn [multi_jurisdiction_loop] in H.
    destruct (multi_jurisdiction_step dp work (acc, db) j)
      as [[acc1 db1]|] eqn:Hstep; [|discriminate H].
    cbn [mbind res_bind] in H.
    destruct (IH _ _ _ _ H) as [Hnone Hother].
    apply multi_jurisdiction_step_spec in Hstep
      as [(_ & _ & ->) | (cj & sj & _ & _ & _ & [[_ ->] | Hw])]; [done..|].
    destruct Hw as (wid & jid & e & Hwid & Hnz & _ & _ & _ & ->).
    split.
    + intros Hid. rewrite Hwid in Hid. cbn in Hid.
      apply negb_false_iff, Z.eqb_eq in Hid. done.
    + intros wid' jid' Hne. rewrite Hother by done.
      apply set_status_other_row. congruence.
Qed.

(** A row stays as it is while the pass does not come across a
    jurisdiction with its id. *)
Lemma multi_jurisdiction_loop_keeps_row
    (dp : DateProvider) (work : Work.t) (l : list Jurisdiction.t)
    (wid jid : Z) :
  Work.id work = Some wid →
  (∀ j, j ∈ l → Jurisdiction.id j ≠ Some jid) →
  ∀ (acc m : gmap string string) (db db' : Database),
    multi_jurisdiction_loop dp work l (acc, db) = Ok (m, db') →
    get_work_copyright_status_by_jurisdiction db' wid jid
    = get_work_copyright_status_by_jurisdiction db wid jid.
Proof.
  intros Hwid. induction l as [|j l IH]; intros Hids acc m db db' H.
  - cbn in H. by injection H as <- <-.
  - cbn [multi_jurisdiction_loop] in H.
    destruct (multi_jurisdiction_step dp work (acc, db) j)
      as [[acc1 db1]|] eqn:Hstep; [|discriminate H].
    cbn [mbind res_bind] in H.
    rewrite (IH (λ j' Hj', Hids j' (list_elem_of_further _ _ _ Hj'))
               _ _ _ _ H).
    apply multi_jurisdiction_step_spec in Hstep
      as [(_ & _ & ->) | (cj & sj & _ & _ & _ & [[_ ->] | Hw])]; [done..|].
    destruct Hw as (wid' & jid' & e & Hwid' & _ & Hjid' & _ & _ & ->).
    apply set_status_other_row.
    intros [= -> ->]. by apply (Hids j (list_elem_of_here _ _)).
Qed.

(** The writes of a pass use up the head of [sqlite_errors]. *)
Lemma multi_jurisdiction_step_errors
    (dp : DateProvider) (work : Work.t) (acc m : gmap string string)
    (db db' : Database) (j : Jurisdiction.t) :
  multi_jurisdiction_step dp work (acc, db) j = Ok (m, db') →
  no_sqlite_error db → no_sqlite_error db'.
Proof.
  intros Hstep Hno.
  apply multi_jurisdiction_step_spec in Hstep
    as [(_ & _ & ->) | (cj & sj & _ & _ & _ & [[_ ->] | Hw])]; [done..|].
  destruct Hw as (wid & jid & e & _ & _ & _ & _ & _ & ->).
  by apply set_status_errors.
Qed.

(** The row of a jurisdiction that the pass goes through: the pass
    leaves in it what it computed for the jurisdiction, unless the store
    refused the write. *)
Lemma multi_jurisdiction_loop_writes_row
    (dp : DateProvider) (work : Work.t) (l : list Jurisdiction.t)
    (wid jid : Z) (j : Jurisdiction.t) :
  Work.id work = Some wid → wid ≠ 0 →
  Jurisdiction.id j = Some jid → jid ≠ 0 →
  is_Some (truthy_code j) →
  (∀ j', j' ∈ l → Jurisdiction.id j' = Some jid → j' = j) →
  j ∈ l →
  ∀ (acc m : gmap string string) (db db' : Database),
    multi_jurisdiction_loop dp work l (acc, db) = Ok (m, db') →
    ∃ s e,
      determine_status db dp work (Some j) None = Ok s
      ∧ calculate_expiry db work (Some j) = Ok e
      ∧ (get_work_copyright_status_by_jurisdiction db' wid jid = Some (s, e)
         ∨ get_work_copyright_status_by_jurisdiction db' wid jid
           = get_work_copyright_status_by_jurisdiction db wid jid)
      ∧ (no_sqlite_error db →
         get_work_copyright_status_by_jurisdiction db' wid jid
         = Some (s, e)).
Proof.
  intros Hwid Hwnz Hjid Hjnz Hcode.
  induction l as [|j0 l IH]; intros Huniq Hin acc m db db' H;
    [inversion Hin|].
  cbn [multi_jurisdiction_loop] in H.
  destruct (multi_jurisdiction_step dp work (acc, db) j0)
    as [[acc1 db1]|] eqn:Hstep; [|discriminate H].
  cbn [mbind res_bind] in H.
  pose proof (step_spec_rules _ _ _ _ _ _ _ Hstep) as Hr.
  pose proof (multi_jurisdiction_step_errors _ _ _ _ _ _ _ Hstep) as Herr.
  destruct (decide (Exists (λ j', Jurisdiction.id j' = Some jid) l))
    as [Hex | Hnl].
  - assert (j ∈ l) as Hl.
    { apply Exists_exists in Hex as (j' & Hj' & Hid').
      by rewrite <- (Huniq j' (list_elem_of_further _ _ _ Hj') Hid'). }
    destruct (IH (λ j' Hj', Huniq j' (list_elem_of_further _ _ _ Hj')) Hl
                _ _ _ _ H) as (s & e & Hs & He & Hrow & Hgood).
    rewrite (determine_status_ext_db db db1) in Hs by exact Hr.
    rewrite (calculate_expiry_ext_db db db1) in He by exact Hr.
    exists s, e. split; [exact Hs|]. split; [exact He|].
    split; [|by intros Hno; apply Hgood, Herr].
    destruct Hrow as [Hrow | Hrow]; [by left|]. rewrite Hrow.
    apply multi_jurisdiction_step_spec in Hstep
      as [(_ & _ & ->) | (cj & sj & _ & Hsj & _ & [[_ ->] | Hw])];
      [by right..|].
    destruct Hw as (wid' & jid' & e' & Hwid' & _ & Hjid' & _ & He' & ->).
    rewrite Hwid in Hwid'. injection Hwid' as <-.
    destruct (decide (jid' = jid)) as [-> | Hne].
    + rewrite (Huniq j0 (list_elem_of_here _ _) Hjid') in Hsj, He'.
      rewrite Hs in Hsj. rewrite He in He'.
      injection Hsj as <-. injection He' as <-.
      apply set_status_row.
    + right. apply set_status_other_row. congruence.
  - rewrite Exists_exists in Hnl.
    apply elem_of_cons in Hin as [<- | Hin]; [|exfalso; apply Hnl; eauto].
    assert (get_work_copyright_status_by_jurisdiction db' wid jid
            = get_work_copyright_status_by_jurisdiction db1 wid jid) as Hkeep.
    { apply (multi_jurisdiction_loop_keeps_row dp work l wid jid Hwid)
        with (acc := acc1) (m := m); [|exact H].
      intros j' Hj' Hid'. apply Hnl. eauto. }
    rewrite Hkeep.
    apply multi_jurisdiction_step_spec in Hstep
      as [(Hnone & _) | (cj & sj & _ & Hs & _ & [[Hids _] | Hw])].
    + rewrite Hnone in Hcode. by destruct Hcode.
    + rewrite Hwid, Hjid in Hids. cbn in Hids.
      apply Z.eqb_neq in Hwnz, Hjnz. rewrite Hwnz, Hjnz in Hids.
      discriminate Hids.
    + destruct Hw as (wid' & jid' & e & Hwid' & _ & Hjid' & _ & He & ->).
      rewrite Hwid in Hwid'. rewrite Hjid in Hjid'.
      injection Hwid' as <-. injection Hjid' as <-.
      exists sj, e. split; [exact Hs|]. split; [exact He|].
      split; [apply set_status_row | apply set_status_row_written].
Qed.

End MultiJurisdiction.

Lemma multi_jurisdiction_map_spec
    (db db' : Database) (dp : DateProvider) (work : Work.t)
    (jurisdictions : option (list Jurisdiction.t)) (m : gmap string string) :
  calculate_multi_jurisdiction_status db dp work jurisdictions = Ok (m, db') →
  (∀ c, is_Some (m !! c)
        ↔ c ∈ recorded_codes (jurisdictions_or_all db jurisdictions))
  ∧ ∀ c s, m !! c = Some s →
      ∃ j, j ∈ jurisdictions_or_all db jurisdictions
           ∧ Jurisdiction.code j = Some c ∧ c ≠ ""
           ∧ determine_status db dp work (Some j) None = Ok s.
Proof.
  intros H.
  change (multi_jurisdiction_loop dp work
            (jurisdictions_or_all db jurisdictions) (∅, db) = Ok (m, db')) in H.
  split.
  - intros c.
    apply multi_jurisdiction_loop_inv in H as (_ & _ & _ & Hdom).
    rewrite Hdom, lookup_empty. split; [|by right].
    intros [Hs | Hc]; [by destruct Hs | exact Hc].
  - intros c s Hc.
    destruct (multi_jurisdiction_loop_values _ _ _ _ _ _ _ H c s Hc)
      as [He | (j & Hin & Hcode & Hs)]; [by rewrite lookup_empty in He|].
    exists j. split; [exact Hin|].
    unfold truthy_code in Hcode.
    destruct (Jurisdiction.code j) as [c'|]; [|discriminate Hcode].
    destruct (truthy_str c') eqn:Ht; [|discriminate Hcode].
    injection Hcode as ->. split; [reflexivity|]. split; [|exact Hs].
    intros ->. discriminate Ht.
Qed.

(** X11: the map that [calculate_multi_jurisdiction_status] returns has
    exactly the non-empty codes of the jurisdictions it went through
    (those passed in, or the whole catalogue when none or an empty list
    is passed) as keys, and each value is the status that
    [determine_status] gives for a jurisdiction with that code. *)
Theorem X11_multi_jurisdiction_map
    (db db' : Database) (dp : DateProvider) (work : Work.t)
    (jurisdictions : option (list Jurisdiction.t)) (m : gmap string string) :
  calculate_multi_jurisdiction_status db dp work jurisdictions = Ok (m, db') →
  (∀ c, is_Some (m !! c)
        ↔ c ∈ recorded_codes (jurisdictions_or_all db jurisdictions))
  ∧ ∀ c s, m !! c = Some s →
      ∃ j, j ∈ jurisdictions_or_all db jurisdictions
           ∧ Jurisdiction.code j = Some c ∧ c ≠ ""
           ∧ determine_status db dp work (Some j) None = Ok s.
Proof. apply multi_jurisdiction_map_spec. Qed.

Lemma X11_witness_pd_book :
  calculate_multi_jurisdiction_status Sample.db Sample.dp Sample.pd_book None
  = Ok (Work.status_by_jurisdiction Sample.pd_book_updated, Sample.db)
  ∧ (∀ c, is_Some (Work.status_by_jurisdiction Sample.pd_book_updated !! c)
          ↔ c ∈ recorded_codes (jurisdictions_or_all Sample.db None))
  ∧ ∀ c s, Work.status_by_jurisdiction Sample.pd_book_updated !! c = Some s →
      ∃ j, j ∈ jurisdictions_or_all Sample.db None
           ∧ Jurisdiction.code j = Some c ∧ c ≠ ""
           ∧ determine_status Sample.db Sample.dp Sample.pd_book (Some j) None
             = Ok s.
Proof.
  assert (calculate_multi_jurisdiction_status Sample.db Sample.dp
            Sample.pd_book None
          = Ok (Work.status_by_jurisdiction Sample.pd_book_updated, Sample.db))
    as H by (vm_compute; reflexivity).
  split; [exact H|].
  exact (X11_multi_jurisdiction_map Sample.db Sample.db Sample.dp
           Sample.pd_book None _ H).
Defined.

(** X12: [calculate_multi_jurisdiction_status] never alters the
    catalogue or the rule tables, writes nothing at all for a work
    without a persisted id, and leaves the stored rows of every other
    work untouched. *)
Theorem X12_multi_jurisdiction_store_frame
    (db db' : Database) (dp : DateProvider) (work : Work.t)
    (jurisdictions : option (list Jurisdiction.t)) (m : gmap string string) :
  calculate_multi_jurisdiction_status db dp work jurisdictions = Ok (m, db') →
  get_all_jurisdictions db' = get_all_jurisdictions db
  ∧ (∀ jid, get_copyright_rules_for_jurisdiction db' jid
            = get_copyright_rules_for_jurisdiction db jid)
  ∧ (truthy_int (Work.id work) = false → db' = db)
  ∧ ∀ wid jid, Work.id work ≠ Some wid →
      get_work_copyright_status_by_jurisdiction db' wid jid
      = get_work_copyright_status_by_jurisdiction db wid jid.
Proof.
  intros H.
  change (multi_jurisdiction_loop dp work
            (jurisdictions_or_all db jurisdictions) (∅, db) = Ok (m, db')) in H.
  pose proof (multi_jurisdiction_loop_inv _ _ _ _ _ _ _ H) as (Hr & Hj & _).
  destruct (multi_jurisdiction_loop_frame _ _ _ _ _ _ _ H) as [Hnone Hother].
  split; [exact Hj|]. split; [|done].
  intros jid. unfold get_copyright_rules_for_jurisdiction. by rewrite Hr.
Qed.

Lemma X12_witness_pd_book :
  calculate_multi_jurisdiction_status Sample.db Sample.dp Sample.pd_book None
  = Ok (Work.status_by_jurisdiction Sample.pd_book_updated, Sample.db)
  ∧ get_all_jurisdictions Sample.db = get_all_jurisdictions Sample.db
  ∧ (∀ jid, get_copyright_rules_for_jurisdiction Sample.db jid
            = get_copyright_rules_for_jurisdiction Sample.db jid)
  ∧ (truthy_int (Work.id Sample.pd_book) = false → Sample.db = Sample.db)
  ∧ ∀ wid jid, Work.id Sample.pd_book ≠ Some wid →
      get_work_copyright_status_by_jurisdiction Sample.db wid jid
      = get_work_copyright_status_by_jurisdiction Sample.db wid jid.
Proof.
  assert (calculate_multi_jurisdiction_status Sample.db Sample.dp
            Sample.pd_book None
          = Ok (Work.status_by_jurisdiction Sample.pd_book_updated, Sample.db))
    as H by (vm_compute; reflexivity).
  split; [exact H|].
  exact (X12_multi_jurisdiction_store_frame Sample.db Sample.db Sample.dp
           Sample.pd_book None _ H).
Defined.

(** X13: after a pass for a persisted work, take a persisted
    jurisdiction with a code, the only one in the pass with that id and
    that code.  The returned map has for the code the status that
    [determine_status] gives, and the stored row of the jurisdiction
    holds that status together with the expiry date [calculate_expiry]
    gives, unless the store refused the write (the [sqlite3.Error] is
    swallowed): then the row is as it was before the pass.  When the
    store refuses no write, the row holds the two values. *)
Theorem X13_stored_row_matches_map
    (db db' : Database) (dp : DateProvider) (work : Work.t)
    (jurisdictions : option (list Jurisdiction.t)) (m : gmap string string)
    (wid jid : Z) (j : Jurisdiction.t) (c : string) :
  calculate_multi_jurisdiction_status db dp work jurisdictions = Ok (m, db') →
  Work.id work = Some wid → wid ≠ 0 →
  j ∈ jurisdictions_or_all db jurisdictions →
  Jurisdiction.id j = Some jid → jid ≠ 0 →
  Jurisdiction.code j = Some c → c ≠ "" →
  (∀ j', j' ∈ jurisdictions_or_all db jurisdictions →
         Jurisdiction.id j' = Some jid ∨ Jurisdiction.code j' = Some c →
         j' = j) →
  ∃ s e,
    m !! c = Some s
    ∧ determine_status db dp work (Some j) None = Ok s
    ∧ calculate_expiry db work (Some j) = Ok e
    ∧ (get_work_copyright_status_by_jurisdiction db' wid jid = Some (s, e)
       ∨ get_work_copyright_status_by_jurisdiction db' wid jid
         = get_work_copyright_status_by_jurisdiction db wid jid)
    ∧ (no_sqlite_error db →
       get_work_copyright_status_by_jurisdiction db' wid jid = Some (s, e)).
Proof.
  intros H Hwid Hwnz Hin Hjid Hjnz Hcode Hc Huniq.
  pose proof (multi_jurisdiction_map_spec db db' dp work jurisdictions m H)
    as [Hdom Hval].
  change (multi_jurisdiction_loop dp work
            (jurisdictions_or_all db jurisdictions) (∅, db) = Ok (m, db')) in H.
  assert (truthy_code j = Some c) as Htc.
  { unfold truthy_code. rewrite Hcode. unfold truthy_str.
    destruct (String.eqb_spec c ""); [done | reflexivity]. }
  destruct (multi_jurisdiction_loop_writes_row dp work
              (jurisdictions_or_all db jurisdictions) wid jid j
              Hwid Hwnz Hjid Hjnz) with (acc := (∅ : gmap string string))
              (m := m) (db := db) (db' := db')
    as (s & e & Hs & He & Hrow & Hgood);
    [by rewrite Htc | | exact Hin | exact H |].
  { intros j' Hj' Hid'. apply Huniq; auto. }
  exists s, e. split; [|done].
  destruct (proj2 (Hdom c)) as [s' Hs'].
  { unfold recorded_codes. apply list_elem_of_omap. eauto. }
  destruct (Hval c s' Hs') as (j' & Hj' & Hcode' & _ & Hds').
  rewrite (Huniq j' Hj' (or_intror Hcode')) in Hds'.
  rewrite Hs'. congruence.
Qed.

Lemma X13_witness_pd_book_saved :
  calculate_multi_jurisdiction_status Sample.db Sample.dp Sample2.pd_book_saved
    None
  = Ok (Work.status_by_jurisdiction Sample.pd_book_updated,
        Sample2.db_after_pd_book)
  ∧ ∃ s e,
      Work.status_by_jurisdiction Sample.pd_book_updated !! "US" = Some s
      ∧ determine_status Sample.db Sample.dp Sample2.pd_book_saved
          (Some Sample.US) None = Ok s
      ∧ calculate_expiry Sample.db Sample2.pd_book_saved (Some Sample.US)
        = Ok e
      ∧ (get_work_copyright_status_by_jurisdiction Sample2.db_after_pd_book
           11 1 = Some (s, e)
         ∨ get_work_copyright_status_by_jurisdiction Sample2.db_after_pd_book
             11 1
           = get_work_copyright_status_by_jurisdiction Sample.db 11 1)
      ∧ (no_sqlite_error Sample.db →
         get_work_copyright_status_by_jurisdiction Sample2.db_after_pd_book
           11 1 = Some (s, e)).
Proof.
  assert (calculate_multi_jurisdiction_status Sample.db Sample.dp
            Sample2.pd_book_saved None
          = Ok (Work.status_by_jurisdiction Sample.pd_book_updated,
                Sample2.db_after_pd_book)) as H by (vm_compute; reflexivity).
  split; [exact H|].
  apply (X13_stored_row_matches_map Sample.db Sample2.db_after_pd_book
           Sample.dp Sample2.pd_book_saved None _ 11 1 Sample.US "US" H);
    try reflexivity; try lia; try discriminate.
  - cbn. set_solver.
  - intros j' Hj' Hor. cbn in Hj'.
    repeat (apply elem_of_cons in Hj' as [-> | Hj']);
      [destruct Hor; discriminate.. | reflexivity | inversion Hj'].
Defined.

(** A pass whose sixth write, the one for the US, the store refuses:
    the map is the same, the US row is not written. *)
Lemma refused_write_pd_book_saved :
  ∃ db',
    calculate_multi_jurisdiction_status Sample2.db_refusing_sixth Sample.dp
      Sample2.pd_book_saved None
    = Ok (Work.status_by_jurisdiction Sample.pd_book_updated, db')
    ∧ get_work_copyright_status_by_jurisdiction db' 11 1 = None
    ∧ get_work_copyright_status_by_jurisdiction db' 11 4
      = Some ("Copyrighted", Some (mkdate 2040 12 31)).
Proof. eexists. split; [vm_compute; reflexivity|]. split; reflexivity. Qed.

(** ** [update_work_status] *)

Section UpdateWorkStatus.

#[local] Arguments calculate_expiry : simpl never.
#[local] Arguments determine_status : simpl never.

Lemma update_work_status_result
    (db db1 : Database) (dp : DateProvider) (work work1 : Work.t) :
  update_work_status db dp work = Ok (work1, db1) →
  ∃ e s m,
    expiry_after db work = Ok e
    ∧ determine_status db dp (Work.set_copyright_expiry_date work e) None None
      = Ok s
    ∧ multi_jurisdiction_loop dp
        (Work.set_status (Work.set_copyright_expiry_date work e) s)
        (jurisdictions db) (∅, db) = Ok (m, db1)
    ∧ work1 = Work.mk (Work.title work) (Work.id work) (Work.authors work)
                (Work.creation_date work) e
                (primary_after work (jurisdictions db)) s m.
Proof.
  rewrite update_work_status_steps. intros H.
  destruct (expiry_after db work) as [e|]; [|discriminate H].
  cbn [mbind res_bind] in H.
  destruct (determine_status db dp _ None None) as [s|] eqn:Hs;
    [|discriminate H].
  cbn [mbind res_bind] in H.
  destruct (multi_jurisdiction_loop dp _ (jurisdictions db) (∅, db))
    as [[m dbx]|] eqn:Hloop; [|discriminate H].
  cbn [mbind res_bind fst snd] in H. injection H as <- <-.
  exists e, s, m. done.
Qed.

Lemma find_split {A} (f : A → bool) (l : list A) (x : A) :
  List.find f l = Some x →
  ∃ pre post, l = (pre ++ x :: post)%list ∧ f x = true ∧ ∀ y, y ∈ pre → f y = false.
Proof.
  induction l as [|z l IH]; cbn; [discriminate|].
  destruct (f z) eqn:Hz.
  - intros [= <-]. exists [], l. split; [reflexivity|]. split; [exact Hz|].
    intros y Hy. inversion Hy.
  - intros H. destruct (IH H) as (pre & post & -> & Hx & Hpre).
    exists (z :: pre), post. split; [reflexivity|]. split; [exact Hx|].
    intros y Hy. apply elem_of_cons in Hy as [-> | Hy]; auto.
Qed.

Lemma find_None_all {A} (f : A → bool) (l : list A) :
  List.find f l = None → ∀ y, y ∈ l → f y = false.
Proof.
  intros H y Hy. apply list_elem_of_In in Hy.
  exact (List.find_none f l H y Hy).
Qed.

Lemma for_return_split {A R} (l : list A) (body : A → option R) (r : R) :
  for_return l body = Some r →
  ∃ pre x post,
    l = (pre ++ x :: post)%list ∧ body x = Some r ∧ ∀ y, y ∈ pre → body y = None.
Proof.
  induction l as [|z l IH]; cbn; [discriminate|].
  destruct (body z) as [r'|] eqn:Hz.
  - intros [= <-]. exists [], z, l. split; [reflexivity|]. split; [exact Hz|].
    intros y Hy. inversion Hy.
  - intros H. destruct (IH H) as (pre & x & post & -> & Hx & Hpre).
    exists (z :: pre), x, post. split; [reflexivity|]. split; [exact Hx|].
    intros y Hy. apply elem_of_cons in Hy as [-> | Hy]; auto.
Qed.

Lemma for_return_None_inv {A R} (l : list A) (body : A → option R) :
  for_return l body = None → ∀ x, x ∈ l → body x = None.
Proof.
  induction l as [|z l IH]; cbn; intros H x Hx; [inversion Hx|].
  destruct (body z) eqn:Hz; [discriminate H|].
  apply elem_of_cons in Hx as [-> | Hx]; auto.
Qed.

Lemma nationality_matches_eqb (a : Author.t) (j : Jurisdiction.t) (n : string) :
  Author.nationality a = Some n → truthy_str n = true →
  (ostr_eqb (Jurisdiction.code j) n = true ↔ nationality_matches a j).
Proof.
  intros Hn Ht. rewrite ostr_eqb_eq. split.
  - intros Hc. exists n. split; [exact Hn|]. split; [|exact Hc].
    intros ->. discriminate Ht.
  - intros (n' & Hn' & _ & Hc). congruence.
Qed.

Lemma no_nationality_no_match (a : Author.t) (j : Jurisdiction.t) :
  match Author.nationality a with
  | Some n => truthy_str n = false
  | None => True
  end → ¬ nationality_matches a j.
Proof.
  intros H (n & Hn & Hne & _). rewrite Hn in H.
  unfold truthy_str in H. apply negb_false_iff, String.eqb_eq in H. done.
Qed.

Lemma jurisdiction_of_nationality_Some
    (authors : list Author.t) (l : list Jurisdiction.t) (j : Jurisdiction.t) :
  jurisdiction_of_nationality authors l = Some j →
  ∃ pre a post jpre jpost,
    authors = (pre ++ a :: post)%list ∧ l = (jpre ++ j :: jpost)%list
    ∧ nationality_matches a j
    ∧ (∀ j', j' ∈ jpre → ¬ nationality_matches a j')
    ∧ (∀ a' j', a' ∈ pre → j' ∈ l → ¬ nationality_matches a' j').
Proof.
  unfold jurisdiction_of_nationality. intros H.
  apply for_return_split in H as (pre & a & post & -> & Ha & Hpre).
  destruct (Author.nationality a) as [n|] eqn:Hn; [|discriminate Ha].
  destruct (truthy_str n) eqn:Ht; [|discriminate Ha].
  apply find_split in Ha as (jpre & jpost & -> & Hj & Hjpre).
  exists pre, a, post, jpre, jpost.
  split; [reflexivity|]. split; [reflexivity|]. split; [|split].
  - by apply (nationality_matches_eqb a j n Hn Ht).
  - intros j' Hj' Hm. apply (nationality_matches_eqb a j' n Hn Ht) in Hm.
    rewrite (Hjpre j' Hj') in Hm. discriminate Hm.
  - intros a' j' Ha' Hj' Hm. specialize (Hpre a' Ha').
    destruct (Author.nationality a') as [n'|] eqn:Hn';
      [|refine (no_nationality_no_match a' j' _ Hm); by rewrite Hn'].
    destruct (truthy_str n') eqn:Ht';
      [|refine (no_nationality_no_match a' j' _ Hm); by rewrite Hn'].
    apply (nationality_matches_eqb a' j' n' Hn' Ht') in Hm.
    rewrite (find_None_all _ _ Hpre j' Hj') in Hm. discriminate Hm.
Qed.

Lemma jurisdiction_of_nationality_None
    (authors : list Author.t) (l : list Jurisdiction.t) :
  jurisdiction_of_nationality authors l = None →
  ∀ a j, a ∈ authors → j ∈ l → ¬ nationality_matches a j.
Proof.
  unfold jurisdiction_of_nationality. intros H a j Ha Hj Hm.
  pose proof (for_return_None_inv _ _ H a Ha) as Hbody. cbn beta in Hbody.
  destruct (Author.nationality a) as [n|] eqn:Hn;
    [|refine (no_nationality_no_match a j _ Hm); by rewrite Hn].
  destruct (truthy_str n) eqn:Ht;
    [|refine (no_nationality_no_match a j _ Hm); by rewrite Hn].
  apply (nationality_matches_eqb a j n Hn Ht) in Hm.
  rewrite (find_None_all _ _ Hbody j Hj) in Hm. discriminate Hm.
Qed.

End UpdateWorkStatus.

(** X14: [update_work_status] never changes a work's title, id, authors
    or creation date, never replaces a primary jurisdiction that is set,
    and never alters the jurisdiction catalogue or the rule tables. *)
Theorem X14_update_work_status_frame
    (db db1 : Database) (dp : DateProvider) (work work1 : Work.t) :
  update_work_status db dp work = Ok (work1, db1) →
  Work.title work1 = Work.title work
  ∧ Work.id work1 = Work.id work
  ∧ Work.authors work1 = Work.authors work
  ∧ Work.creation_date work1 = Work.creation_date work
  ∧ (∀ p, Work.primary_jurisdiction work = Some p →
          Work.primary_jurisdiction work1 = Some p)
  ∧ get_all_jurisdictions db1 = get_all_jurisdictions db
  ∧ ∀ jid, get_copyright_rules_for_jurisdiction db1 jid
           = get_copyright_rules_for_jurisdiction db jid.
Proof.
  intros H.
  destruct (update_work_status_db db dp work work1 db1 H) as [Hr Hj].
  apply update_work_status_result in H as (e & s & m & _ & _ & _ & ->).
  cbn. repeat split; try done.
  - intros p Hp. unfold primary_after. by rewrite Hp.
  - intros jid. unfold get_copyright_rules_for_jurisdiction. by rewrite Hr.
Qed.

Lemma X14_witness_pd_book :
  update_work_status Sample.db Sample.dp Sample.pd_book
  = Ok (Sample.pd_book_updated, Sample.db)
  ∧ Work.title Sample.pd_book_updated = Work.title Sample.pd_book
  ∧ Work.id Sample.pd_book_updated = Work.id Sample.pd_book
  ∧ Work.authors Sample.pd_book_updated = Work.authors Sample.pd_book
  ∧ Work.creation_date Sample.pd_book_updated
    = Work.creation_date Sample.pd_book
  ∧ (∀ p, Work.primary_jurisdiction Sample.pd_book = Some p →
          Work.primary_jurisdiction Sample.pd_book_updated = Some p)
  ∧ get_all_jurisdictions Sample.db = get_all_jurisdictions Sample.db
  ∧ ∀ jid, get_copyright_rules_for_jurisdiction Sample.db jid
           = get_copyright_rules_for_jurisdiction Sample.db jid.
Proof.
  assert (update_work_status Sample.db Sample.dp Sample.pd_book
          = Ok (Sample.pd_book_updated, Sample.db)) as H
    by (vm_compute; reflexivity).
  split; [exact H|].
  exact (X14_update_work_status_frame Sample.db Sample.db Sample.dp
           Sample.pd_book Sample.pd_book_updated H).
Defined.

(** X15: when a work has no primary jurisdiction, [update_work_status]
    sets it to the jurisdiction chosen by the first author, in author
    order, whose nationality is the code of some catalogue jurisdiction,
    and among those to the first in catalogue order; when no author's
    nationality is a catalogue code it stays unset. *)
Theorem X15_primary_jurisdiction_from_nationality
    (db db1 : Database) (dp : DateProvider) (work work1 : Work.t) :
  Work.primary_jurisdiction work = None →
  update_work_status db dp work = Ok (work1, db1) →
  match Work.primary_jurisdiction work1 with
  | Some j =>
      ∃ pre a post jpre jpost,
        Work.authors work = (pre ++ a :: post)%list
        ∧ get_all_jurisdictions db = (jpre ++ j :: jpost)%list
        ∧ nationality_matches a j
        ∧ (∀ j', j' ∈ jpre → ¬ nationality_matches a j')
        ∧ (∀ a' j', a' ∈ pre → j' ∈ get_all_jurisdictions db →
                    ¬ nationality_matches a' j')
  | None =>
      ∀ a j, a ∈ Work.authors work → j ∈ get_all_jurisdictions db →
             ¬ nationality_matches a j
  end.
Proof.
  intros Hp H.
  apply update_work_status_result in H as (e & s & m & _ & _ & _ & ->).
  cbn [Work.primary_jurisdiction]. unfold primary_after. rewrite Hp.
  unfold get_all_jurisdictions.
  destruct (Work.authors work) as [|a0 rest] eqn:Ha; cbn [nonempty].
  - intros a j Hin. inversion Hin.
  - destruct (jurisdiction_of_nationality (a0 :: rest) (jurisdictions db))
      as [j|] eqn:Hj.
    + by apply jurisdiction_of_nationality_Some.
    + by apply jurisdiction_of_nationality_None.
Qed.

Lemma X15_witness_acme :
  (Work.primary_jurisdiction Sample2.acme_manual = None
   ∧ update_work_status Sample.db Sample.dp Sample2.acme_manual
     = Ok (Sample2.acme_manual_updated, Sample.db))
  ∧ ∃ pre a post jpre jpost,
      Work.authors Sample2.acme_manual = (pre ++ a :: post)%list
      ∧ get_all_jurisdictions Sample.db = (jpre ++ Sample.US :: jpost)%list
      ∧ nationality_matches a Sample.US
      ∧ (∀ j', j' ∈ jpre → ¬ nationality_matches a j')
      ∧ (∀ a' j', a' ∈ pre → j' ∈ get_all_jurisdictions Sample.db →
                  ¬ nationality_matches a' j').
Proof.
  assert (update_work_status Sample.db Sample.dp Sample2.acme_manual
          = Ok (Sample2.acme_manual_updated, Sample.db)) as H
    by (vm_compute; reflexivity).
  split; [split; [reflexivity | exact H]|].
  exact (X15_primary_jurisdiction_from_nationality Sample.db Sample.db
           Sample.dp Sample2.acme_manual Sample2.acme_manual_updated
           eq_refl H).
Defined.

(** X16: for a work that has neither a stored expiry date nor a stored
    status other than 'Unknown', the status that [update_work_status]
    sets agrees with the expiry date it sets: 'Public Domain' when that
    date is not after the current date, 'Copyrighted' when it is, and
    'Unknown' when there is no date. *)
Theorem X16_fresh_status_agrees_with_expiry
    (db db1 : Database) (dp : DateProvider) (work work1 : Work.t) :
  Work.copyright_expiry_date work = None →
  cached_global_status work None = false →
  update_work_status db dp work = Ok (work1, db1) →
  Work.status work1
  = match Work.copyright_expiry_date work1 with
    | Some e =>
        if date_leb e (get_current_date dp) then "Public Domain"
        else "Copyrighted"
    | None => "Unknown"
    end.
Proof.
  intros Hnone Hfresh H.
  apply update_work_status_result in H as (e & s & m & He & Hs & _ & ->).
  cbn [Work.status Work.copyright_expiry_date].
  unfold expiry_after in He. rewrite Hnone in He.
  unfold determine_status in Hs.
  change (cached_global_status work None) with
    (negb (is_some (@None Jurisdiction.t))
     && truthy_str (Work.status (Work.set_copyright_expiry_date work e))
     && negb (String.eqb
                (Work.status (Work.set_copyright_expiry_date work e))
                "Unknown")) in Hfresh.
  rewrite Hfresh in Hs. cbn [cached_jurisdiction_status] in Hs.
  change (calculate_expiry db (Work.set_copyright_expiry_date work e) None)
    with (calculate_expiry db work None) in Hs.
  rewrite He in Hs. cbn [mbind res_bind] in Hs.
  destruct e as [d|].
  - destruct (date_leb d (get_current_date dp)); by injection Hs as <-.
  - apply calculate_expiry_None_inv in He as [Hc _].
    unfold historical_cutoff in Hs.
    change (Work.creation_date (Work.set_copyright_expiry_date work None))
      with (Work.creation_date work) in Hs.
    rewrite Hc in Hs. by injection Hs as <-.
Qed.

Lemma X16_witness_pd_book :
  (Work.copyright_expiry_date Sample.pd_book = None
   ∧ cached_global_status Sample.pd_book None = false
   ∧ update_work_status Sample.db Sample.dp Sample.pd_book
     = Ok (Sample.pd_book_updated, Sample.db))
  ∧ Work.status Sample.pd_book_updated
    = if date_leb (mkdate 2040 12 31) (get_current_date Sample.dp)
      then "Public Domain" else "Copyrighted".
Proof.
  assert (update_work_status Sample.db Sample.dp Sample.pd_book
          = Ok (Sample.pd_book_updated, Sample.db)) as H
    by (vm_compute; reflexivity).
  split; [split; [reflexivity | split; [reflexivity | exact H]]|].
  exact (X16_fresh_status_agrees_with_expiry Sample.db Sample.db Sample.dp
           Sample.pd_book Sample.pd_book_updated eq_refl eq_refl H).
Defined.

Lemma determine_status_valid
    (db : Database) (dp : DateProvider) (work : Work.t)
    (jurisdiction : option Jurisdiction.t) (current_date : option date)
    (s : string) :
  valid_status (Work.status work) →
  (∀ c s', Work.status_by_jurisdiction work !! c = Some s' → valid_status s') →
  determine_status db dp work jurisdiction current_date = Ok s →
  valid_status s.
Proof.
  intros Hst Hmap. unfold determine_status.
  destruct (_ && _ && _); [by intros [= <-]|].
  destruct (cached_jurisdiction_status work jurisdiction) as [cached|] eqn:Hc.
  - intros [= <-]. unfold cached_jurisdiction_status in Hc.
    destruct jurisdiction as [j|]; [|discriminate Hc].
    destruct (Jurisdiction.code j) as [c|]; [|discriminate Hc]. eauto.
  - destruct (calculate_expiry db work jurisdiction) as [[e|]|]; cbn;
      [| |discriminate].
    + destruct (date_leb e _); intros [= <-];
        [by left | by right; left].
    + unfold historical_cutoff.
      destruct (Work.creation_date work) as [c|];
        [|intros [= <-]; by right; right].
      destruct (year c <? 1875); [intros [= <-]; by left|].
      destruct jurisdiction as [j|];
        [|intros [= <-]; by right; right].
      destruct (_ && _); intros [= <-]; [by left | by right; right].
Qed.

(** X17: [update_work_status] keeps the status values inside the closed
    set: if the work's status and all its per-jurisdiction statuses are
    among 'Public Domain', 'Copyrighted' and 'Unknown' before the call,
    they are after it. *)
Theorem X17_update_keeps_status_values_closed
    (db db1 : Database) (dp : DateProvider) (work work1 : Work.t) :
  valid_status (Work.status work) →
  (∀ c s, Work.status_by_jurisdiction work !! c = Some s → valid_status s) →
  update_work_status db dp work = Ok (work1, db1) →
  valid_status (Work.status work1)
  ∧ ∀ c s, Work.status_by_jurisdiction work1 !! c = Some s → valid_status s.
Proof.
  intros Hst Hmap H.
  apply update_work_status_result in H as (e & s & m & _ & Hs & Hloop & ->).
  cbn [Work.status Work.status_by_jurisdiction].
  assert (valid_status s) as Hvs
    by exact (determine_status_valid db dp
                (Work.set_copyright_expiry_date work e) None None s
                Hst Hmap Hs).
  split; [exact Hvs|]. intros c s' Hc.
  destruct (multi_jurisdiction_loop_values _ _ _ _ _ _ _ Hloop c s' Hc)
    as [He | (j & _ & _ & Hds)]; [by rewrite lookup_empty in He|].
  exact (determine_status_valid db dp
           (Work.set_status (Work.set_copyright_expiry_date work e) s)
           (Some j) None s' Hvs Hmap Hds).
Qed.

Lemma X17_witness_pd_book :
  (valid_status (Work.status Sample.pd_book)
   ∧ update_work_status Sample.db Sample.dp Sample.pd_book
     = Ok (Sample.pd_book_updated, Sample.db))
  ∧ valid_status (Work.status Sample.pd_book_updated)
  ∧ ∀ c s, Work.status_by_jurisdiction Sample.pd_book_updated !! c = Some s →
           valid_status s.
Proof.
  assert (update_work_status Sample.db Sample.dp Sample.pd_book
          = Ok (Sample.pd_book_updated, Sample.db)) as H
    by (vm_compute; reflexivity).
  assert (valid_status (Work.status Sample.pd_book)) as Hst
    by (right; right; reflexivity).
  split; [split; [exact Hst | exact H]|].
  apply (X17_update_keeps_status_values_closed Sample.db Sample.db Sample.dp
           Sample.pd_book Sample.pd_book_updated Hst); [|exact H].
  intros c s Hc. cbn in Hc. rewrite lookup_empty in Hc. discriminate Hc.
Defined.

(** ** [get_days_until_expiry] *)

Section DaysUntilExpiry.

#[local] Arguments calculate_expiry : simpl never.
#[local] Arguments determine_status : simpl never.

Lemma get_days_until_expiry_resolved
    (db : Database) (dp : DateProvider) (work work' : Work.t)
    (jurisdiction : option Jurisdiction.t) (current_date : option date)
    (r : option Z) :
  get_days_until_expiry db dp work jurisdiction current_date = Ok (r, work') →
  ∃ e, resolve_expiry db work jurisdiction = Ok (e, work').
Proof.
  unfold get_days_until_expiry. intros H.
  destruct (resolve_expiry db work jurisdiction) as [[e w1]|];
    [|discriminate H].
  cbn [mbind res_bind] in H. exists e.
  destruct e as [d|]; [|by injection H as _ <-].
  destruct (determine_status db dp w1 jurisdiction _) as [st|];
    [|discriminate H].
  cbn [mbind res_bind] in H.
  destruct (String.eqb st "Public Domain"); by injection H as _ <-.
Qed.

Lemma resolve_expiry_again
    (db : Database) (work work' : Work.t)
    (jurisdiction : option Jurisdiction.t) (e : option date) :
  resolve_expiry db work jurisdiction = Ok (e, work') →
  resolve_expiry db work' jurisdiction = Ok (e, work')
  ∧ work' = Work.set_copyright_expiry_date work
              (Work.copyright_expiry_date work')
  ∧ (is_Some jurisdiction ∨ is_Some (Work.copyright_expiry_date work) →
     work' = work).
Proof.
  unfold resolve_expiry. destruct jurisdiction as [j|].
  - destruct (calculate_expiry db work (Some j)) as [e'|] eqn:Hcalc;
      [|discriminate].
    cbn [mbind res_bind]. intros [= <- <-]. rewrite Hcalc.
    split; [reflexivity|]. split; [by destruct work | done].
  - destruct (Work.copyright_expiry_date work) as [d|] eqn:Hd.
    + cbn [mbind res_bind]. rewrite Hd. intros [= <- <-]. rewrite Hd.
      cbn [mbind res_bind]. rewrite Hd.
      split; [reflexivity|]. split; [|done].
      destruct work. cbn in *. by subst.
    + destruct (calculate_expiry db work None) as [e'|] eqn:Hcalc;
        [|discriminate].
      cbn [mbind res_bind Work.copyright_expiry_date
             Work.set_copyright_expiry_date]. intros [= <- <-].
      split; [|split; [reflexivity|]].
      * cbn [Work.copyright_expiry_date]. destruct e' as [d|]; [reflexivity|].
        change (calculate_expiry db _ None) with (calculate_expiry db work None).
        rewrite Hcalc. reflexivity.
      * intros [[x Hx] | [x Hx]]; discriminate.
Qed.

Lemma days_between_pos (a b : date) :
  valid_date a → valid_date b → date_leb a b = false → 0 < days_between a b.
Proof.
  intros Ha Hb Hle. unfold date_leb in Hle.
  destruct (_cmp a b) eqn:Hcmp; try discriminate Hle.
  assert (_cmp b a = Lt) as Hba by (rewrite _cmp_antisym, Hcmp; reflexivity).
  pose proof (toordinal_lt b a Hb Ha Hba). unfold days_between. lia.
Qed.

End DaysUntilExpiry.

(** X18: [get_days_until_expiry] changes at most the work's
    [copyright_expiry_date], and only when no jurisdiction is given and
    the date was unset; asked again about the work it returned, it gives
    the same answer and changes nothing further. *)
Theorem X18_days_until_expiry_caches_once
    (db : Database) (dp : DateProvider) (work work' : Work.t)
    (jurisdiction : option Jurisdiction.t) (current_date : option date)
    (r : option Z) :
  get_days_until_expiry db dp work jurisdiction current_date = Ok (r, work') →
  get_days_until_expiry db dp work' jurisdiction current_date = Ok (r, work')
  ∧ work' = Work.set_copyright_expiry_date work
              (Work.copyright_expiry_date work')
  ∧ (is_Some jurisdiction ∨ is_Some (Work.copyright_expiry_date work) →
     work' = work).
Proof.
  intros H.
  destruct (get_days_until_expiry_resolved _ _ _ _ _ _ _ H) as [e Hres].
  destruct (resolve_expiry_again _ _ _ _ _ Hres) as (Hagain & Hframe & Hsame).
  split; [|done].
  unfold get_days_until_expiry in *. rewrite Hres in H. by rewrite Hagain.
Qed.

Lemma X18_witness_dracula :
  get_days_until_expiry Sample.db Sample.dp Sample.dracula None
    (Some (mkdate 1950 6 1))
  = Ok (Some 11901,
        Work.set_copyright_expiry_date Sample.dracula
          (Some (mkdate 1982 12 31)))
  ∧ get_days_until_expiry Sample.db Sample.dp
      (Work.set_copyright_expiry_date Sample.dracula (Some (mkdate 1982 12 31)))
      None (Some (mkdate 1950 6 1))
    = Ok (Some 11901,
          Work.set_copyright_expiry_date Sample.dracula
            (Some (mkdate 1982 12 31)))
  ∧ Work.set_copyright_expiry_date Sample.dracula (Some (mkdate 1982 12 31))
    = Work.set_copyright_expiry_date Sample.dracula
        (Work.copyright_expiry_date
           (Work.set_copyright_expiry_date Sample.dracula
              (Some (mkdate 1982 12 31))))
  ∧ (is_Some (@None Jurisdiction.t)
     ∨ is_Some (Work.copyright_expiry_date Sample.dracula) →
     Work.set_copyright_expiry_date Sample.dracula (Some (mkdate 1982 12 31))
     = Sample.dracula).
Proof.
  assert (get_days_until_expiry Sample.db Sample.dp Sample.dracula None
            (Some (mkdate 1950 6 1))
          = Ok (Some 11901,
                Work.set_copyright_expiry_date Sample.dracula
                  (Some (mkdate 1982 12 31)))) as H
    by (vm_compute; reflexivity).
  split; [exact H|].
  exact (X18_days_until_expiry_caches_once Sample.db Sample.dp Sample.dracula
           _ None (Some (mkdate 1950 6 1)) (Some 11901) H).
Defined.

(** X19: for a work with no cached status (and, when no jurisdiction is
    given, no stored expiry date), [get_days_until_expiry] returns [None]
    exactly when the status is 'Public Domain' or no expiry can be
    computed; otherwise the status is 'Copyrighted' and the result is the
    day difference, which is strictly positive. *)
Theorem X19_days_until_expiry_uncached
    (db : Database) (dp : DateProvider) (work work' : Work.t)
    (jurisdiction : option Jurisdiction.t) (current_date : date)
    (r : option Z) :
  valid_date current_date →
  cached_global_status work jurisdiction = false →
  cached_jurisdiction_status work jurisdiction = None →
  (jurisdiction = None → Work.copyright_expiry_date work = None) →
  get_days_until_expiry db dp work jurisdiction (Some current_date)
  = Ok (r, work') →
  ∃ e st,
    calculate_expiry db work jurisdiction = Ok e
    ∧ determine_status db dp work jurisdiction (Some current_date) = Ok st
    ∧ (r = None ↔ e = None ∨ st = "Public Domain")
    ∧ ∀ n, r = Some n →
        0 < n ∧ st = "Copyrighted"
        ∧ ∃ d, e = Some d ∧ n = days_between d current_date.
Proof.
  intros Hcur Hglobal Hcached Hunset H.
  assert (∃ e, calculate_expiry db work jurisdiction = Ok e
               ∧ resolve_expiry db work jurisdiction = Ok (e, work')
               ∧ determine_status db dp work' jurisdiction (Some current_date)
                 = determine_status db dp work jurisdiction (Some current_date))
    as (e & Hcalc & Hres & Hsame).
  { destruct (get_days_until_expiry_resolved _ _ _ _ _ _ _ H) as [e Hres].
    exists e. split; [|split; [exact Hres|]].
    - unfold resolve_expiry in Hres. destruct jurisdiction as [j|].
      + destruct (calculate_expiry db work (Some j)); [|discriminate Hres].
        cbn in Hres. by injection Hres as <- _.
      + rewrite (Hunset eq_refl) in Hres.
        destruct (calculate_expiry db work None); [|discriminate Hres].
        cbn in Hres. by injection Hres as <- _.
    - destruct (resolve_expiry_again _ _ _ _ _ Hres) as (_ & -> & _).
      reflexivity. }
  unfold get_days_until_expiry in H. rewrite Hres in H.
  cbn [mbind res_bind] in H. rewrite Hsame in H.
  assert (determine_status db dp work jurisdiction (Some current_date)
          = Ok match e with
               | Some d => if date_leb d current_date then "Public Domain"
                           else "Copyrighted"
               | None => "Unknown"
               end) as Hst.
  { unfold determine_status. unfold cached_global_status in Hglobal.
    rewrite Hglobal, Hcached, Hcalc. cbn [mbind res_bind].
    destruct e as [d|]; [destruct (date_leb d current_date); reflexivity|].
    apply calculate_expiry_None_inv in Hcalc as [Hc _].
    unfold historical_cutoff. rewrite Hc. reflexivity. }
  exists e. eexists. split; [exact Hcalc|]. split; [exact Hst|].
  destruct e as [d|].
  - rewrite Hst in H. cbn [mbind res_bind] in H.
    destruct (date_leb d current_date) eqn:Hle.
    + cbn in H. injection H as <-. split; [split; auto|]. discriminate.
    + cbn in H.
      pose proof (days_between_pos d current_date
                    (calculate_expiry_valid _ _ _ _ Hcalc) Hcur Hle) as Hpos.
      destruct (Z.leb_spec 0 (days_between d current_date)); [|lia].
      injection H as <-. split.
      * split; [discriminate|]. intros [? | ?]; discriminate.
      * intros n [= <-]. eauto.
  - injection H as <-. split; [split; auto|]. discriminate.
Qed.

Lemma X19_witness_dracula :
  (valid_date (mkdate 1950 6 1)
   ∧ get_days_until_expiry Sample.db Sample.dp Sample.dracula (Some Sample.GB)
       (Some (mkdate 1950 6 1)) = Ok (Some 11901, Sample.dracula))
  ∧ ∃ e st,
      calculate_expiry Sample.db Sample.dracula (Some Sample.GB) = Ok e
      ∧ determine_status Sample.db Sample.dp Sample.dracula (Some Sample.GB)
          (Some (mkdate 1950 6 1)) = Ok st
      ∧ (Some 11901 = None ↔ e = None ∨ st = "Public Domain")
      ∧ ∀ n, Some 11901 = Some n →
          0 < n ∧ st = "Copyrighted"
          ∧ ∃ d, e = Some d ∧ n = days_between d (mkdate 1950 6 1).
Proof.
  split; [split; reflexivity|].
  apply (X19_days_until_expiry_uncached Sample.db Sample.dp Sample.dracula
           Sample.dracula (Some Sample.GB) (mkdate 1950 6 1) (Some 11901));
    reflexivity.
Defined.

(** ** [get_works_by_status_in_jurisdiction] *)

Lemma matching_works_spec
    (db : Database) (dp : DateProvider) (j : Jurisdiction.t) (status : string)
    (all_works : list Work.t) :
  ∀ l, matching_works db dp j status all_works = Ok l →
    l `sublist_of` all_works
    ∧ ∀ w, w ∈ l ↔
        w ∈ all_works ∧ determine_status db dp w (Some j) None = Ok status.
Proof.
  induction all_works as [|w0 rest IH]; intros l H.
  - cbn in H. injection H as <-. split; [constructor|].
    intros w. split; [intros Hw; inversion Hw | intros [Hw _]; inversion Hw].
  - cbn [matching_works] in H.
    destruct (determine_status db dp w0 (Some j) None) as [s0|] eqn:Hs0;
      [|discriminate H].
    cbn [mbind res_bind] in H.
    destruct (matching_works db dp j status rest) as [l'|]; [|discriminate H].
    cbn [mbind res_bind] in H. injection H as <-.
    destruct (IH l' eq_refl) as [Hsub Hmem].
    destruct (String.eqb_spec s0 status) as [-> | Hne].
    + split; [by constructor|]. intros w. rewrite !elem_of_cons, Hmem.
      split.
      * intros [-> | [Hw Hs]]; auto.
      * intros [[-> | Hw] Hs]; auto.
    + split; [by constructor|]. intros w. rewrite elem_of_cons, Hmem.
      split.
      * intros [Hw Hs]; auto.
      * intros [[-> | Hw] Hs]; [congruence | auto].
Qed.

(** X20: [get_works_by_status_in_jurisdiction] returns the empty list
    when no catalogue jurisdiction has the given code; otherwise it takes
    the first jurisdiction with that code, in catalogue order, and
    returns, in their original order, exactly the works whose
    [determine_status] in that jurisdiction is the requested status. *)
Theorem X20_works_by_status_in_jurisdiction
    (db : Database) (dp : DateProvider) (all_works l : list Work.t)
    (jurisdiction_code status : string) :
  get_works_by_status_in_jurisdiction db dp all_works jurisdiction_code status
  = Ok l →
  l `sublist_of` all_works
  ∧ (((∀ j, j ∈ get_all_jurisdictions db →
            Jurisdiction.code j ≠ Some jurisdiction_code)
      ∧ l = [])
     ∨ ∃ jpre j jpost,
         get_all_jurisdictions db = (jpre ++ j :: jpost)%list
         ∧ Jurisdiction.code j = Some jurisdiction_code
         ∧ (∀ j', j' ∈ jpre → Jurisdiction.code j' ≠ Some jurisdiction_code)
         ∧ ∀ w, w ∈ l ↔
             w ∈ all_works
             ∧ determine_status db dp w (Some j) None = Ok status).
Proof.
  unfold get_works_by_status_in_jurisdiction. intros H.
  destruct (List.find _ (get_all_jurisdictions db)) as [j|] eqn:Hfind.
  - destruct (matching_works_spec db dp j status all_works l H) as [Hsub Hmem].
    split; [exact Hsub|]. right.
    apply find_split in Hfind as (jpre & jpost & Hcat & Hj & Hpre).
    exists jpre, j, jpost. split; [exact Hcat|].
    split; [by apply ostr_eqb_eq|]. split; [|exact Hmem].
    intros j' Hj' Hc. apply ostr_eqb_eq in Hc.
    rewrite (Hpre j' Hj') in Hc. discriminate Hc.
  - injection H as <-. split; [apply sublist_nil_l|]. left.
    split; [|reflexivity].
    intros j Hj Hc. apply ostr_eqb_eq in Hc.
    rewrite (find_None_all _ _ Hfind j Hj) in Hc. discriminate Hc.
Qed.

Lemma X20_witness_us_public_domain :
  get_works_by_status_in_jurisdiction Sample.db Sample.dp
    [Sample2.acme_manual; Sample.pd_book; Sample2.work_1950]
    "US" "Public Domain"
  = Ok [Sample.pd_book]
  ∧ [Sample.pd_book]
    `sublist_of` [Sample2.acme_manual; Sample.pd_book; Sample2.work_1950]
  ∧ (((∀ j, j ∈ get_all_jurisdictions Sample.db →
            Jurisdiction.code j ≠ Some "US")
      ∧ [Sample.pd_book] = [])
     ∨ ∃ jpre j jpost,
         get_all_jurisdictions Sample.db = (jpre ++ j :: jpost)%list
         ∧ Jurisdiction.code j = Some "US"
         ∧ (∀ j', j' ∈ jpre → Jurisdiction.code j' ≠ Some "US")
         ∧ ∀ w, w ∈ [Sample.pd_book] ↔
             w ∈ [Sample2.acme_manual; Sample.pd_book; Sample2.work_1950]
             ∧ determine_status Sample.db Sample.dp w (Some j) None
               = Ok "Public Domain").
Proof.
  assert (get_works_by_status_in_jurisdiction Sample.db Sample.dp
            [Sample2.acme_manual; Sample.pd_book; Sample2.work_1950]
            "US" "Public Domain"
          = Ok [Sample.pd_book]) as H by (vm_compute; reflexivity).
  split; [exact H|].
  exact (X20_works_by_status_in_jurisdiction Sample.db Sample.dp _ _ _ _ H).
Defined.

(** ** [Work.__post_init__] *)

(** X21: after [__post_init__] a value supplied for either publication
    field is still there, the two fields are equal unless both were
    supplied, one is unset only if both are, and running the
    synchronisation again changes nothing. *)
Theorem X21_post_init_synchronises
    (publication_date first_publication_date : option date) :
  let '(p, f) := post_init publication_date first_publication_date in
  (∀ d, publication_date = Some d → p = Some d)
  ∧ (∀ d, first_publication_date = Some d → f = Some d)
  ∧ (publication_date = None ∨ first_publication_date = None → p = f)
  ∧ (p = None ↔ f = None)
  ∧ post_init p f = (p, f).
Proof.
  destruct publication_date, first_publication_date; cbn;
    repeat split; intros; try congruence; try discriminate; auto.
  all: destruct H; congruence.
Qed.
